(** * Lambda_b -> Lambda l+ l- : helicity, transversity and angular stages

    Shallow embedding of [flavio/physics/bdecays/lambdablambdall.py].

    Numbers: Python floats are read as real numbers ([R]) and Python
    complex numbers as pairs of reals ([C]); rounding, infinities and NaN
    are outside this model.  Dictionaries are finite maps ([gmap]); a
    subscript on a missing key raises [KeyError], [math.sqrt] of a negative
    number raises [ValueError], division by zero raises
    [ZeroDivisionError], and loading a name that the module never binds
    raises [NameError].  Evaluation order is the one of Python, left to
    right. *)

From Stdlib Require Import Reals Lra Psatz.
From stdpp Require Import base option strings gmap.

Open Scope R_scope.

(** ** Exceptions and results *)

Inductive exn : Type :=
  | KeyError
  | ValueError
  | ZeroDivisionError
  | NameError
  | ExternalError.

Inductive result (A : Type) : Type :=
  | Ok (a : A)
  | Raise (e : exn).

Arguments Ok {A} a.
Arguments Raise {A} e.

#[export] Instance result_ret : MRet result := fun A a => Ok a.

#[export] Instance result_bind : MBind result :=
  fun A B f m => match m with Ok a => f a | Raise e => Raise e end.

(** [d[k]] on a dictionary. *)
Definition getitem {K V : Type} `{Countable K} (d : gmap K V) (k : K) : result V :=
  match d !! k with
  | Some v => Ok v
  | None => Raise KeyError
  end.

(** [math.sqrt]. *)
Definition py_sqrt (x : R) : result R :=
  if Rlt_dec x 0 then Raise ValueError else Ok (sqrt x).

(** Float division [a / b]. *)
Definition py_div (a b : R) : result R :=
  if Req_dec_T b 0 then Raise ZeroDivisionError else Ok (a / b).

(** ** Complex numbers *)

Record C : Type := mkC { real : R; imag : R }.

Definition RtoC (x : R) : C := mkC x 0.

Definition Cadd (z w : C) : C := mkC (real z + real w) (imag z + imag w).

Definition Csub (z w : C) : C := mkC (real z - real w) (imag z - imag w).

Definition Cmul (z w : C) : C :=
  mkC (real z * real w - imag z * imag w) (real z * imag w + imag z * real w).

Definition conj (z : C) : C := mkC (real z) (- imag z).

(** [abs(z)] of a complex number. *)
Definition Cabs (z : C) : R := sqrt (real z * real z + imag z * imag z).

(** Complex division [z / w]. *)
Definition Cdiv (z w : C) : result C :=
  let d := real w * real w + imag w * imag w in
  if Req_dec_T d 0 then Raise ZeroDivisionError
  else Ok (mkC ((real z * real w + imag z * imag w) / d)
               ((imag z * real w - real z * imag w) / d)).

Declare Scope C_scope.
Delimit Scope C_scope with C.
Bind Scope C_scope with C.
Infix "+" := Cadd : C_scope.
Infix "-" := Csub : C_scope.
Infix "*" := Cmul : C_scope.

(** ** Helicity amplitudes (source lines 10-33) *)

Definition helicity_amps (q2 mLb mL : R) (ff : gmap string R)
  : result (gmap string R) :=
  let sp := (mLb + mL)^2 - q2 in
  let sm := (mLb - mL)^2 - q2 in
  let H : gmap string R := ∅ in
  x ← (f ← getitem ff "fV0"; s ← py_sqrt q2; d ← py_div (f * (mLb + mL)) s;
       t ← py_sqrt sm; Ok (d * t));
  let H := <["0V++" := x]> H in
  x ← (f ← getitem ff "fVperp"; t ← py_sqrt (2 * sm); Ok (- f * t));
  let H := <["+V-+" := x]> H in
  x ← (f ← getitem ff "fA0"; s ← py_sqrt q2; d ← py_div (f * (mLb - mL)) s;
       t ← py_sqrt sp; Ok (d * t));
  let H := <["0A++" := x]> H in
  x ← (f ← getitem ff "fAperp"; t ← py_sqrt (2 * sp); Ok (- f * t));
  let H := <["+A-+" := x]> H in
  x ← (f ← getitem ff "fT0"; s ← py_sqrt q2; t ← py_sqrt sm; Ok (- f * s * t));
  let H := <["0T++" := x]> H in
  x ← (f ← getitem ff "fTperp"; t ← py_sqrt (2 * sm); Ok (f * (mLb + mL) * t));
  let H := <["+T-+" := x]> H in
  x ← (f ← getitem ff "fT50"; s ← py_sqrt q2; t ← py_sqrt sp; Ok (f * s * t));
  let H := <["0T5++" := x]> H in
  x ← (f ← getitem ff "fT5perp"; t ← py_sqrt (2 * sp); Ok (- f * (mLb - mL) * t));
  let H := <["+T5-+" := x]> H in
  x ← getitem H "0V++";
  let H := <["0V--" := x]> H in
  x ← getitem H "+V-+";
  let H := <["+V+-" := x]> H in
  x ← getitem H "0A++";
  let H := <["0A--" := - x]> H in
  x ← getitem H "+A-+";
  let H := <["+A+-" := - x]> H in
  x ← getitem H "0T++";
  let H := <["0T--" := x]> H in
  x ← getitem H "+T-+";
  let H := <["+T+-" := x]> H in
  x ← getitem H "0T5++";
  let H := <["0T5--" := - x]> H in
  x ← getitem H "+T5-+";
  let H := <["+T5+-" := - x]> H in
  Ok H.

(** ** Transversity amplitudes (source lines 35-60) *)

Definition transverity_amps (ha : gmap string R) (q2 mLb mL mqh mql : R)
    (wc : gmap string C) (prefactor : C) : result (gmap (string * string) C) :=
  C910Lpl ← (v ← getitem wc "v"; a ← getitem wc "a"; vp ← getitem wc "vp";
             ap ← getitem wc "ap"; Ok ((v - a) + (vp - ap))%C);
  C910Rpl ← (v ← getitem wc "v"; a ← getitem wc "a"; vp ← getitem wc "vp";
             ap ← getitem wc "ap"; Ok ((v + a) + (vp + ap))%C);
  C910Lmi ← (v ← getitem wc "v"; a ← getitem wc "a"; vp ← getitem wc "vp";
             ap ← getitem wc "ap"; Ok ((v - a) - (vp - ap))%C);
  C910Rmi ← (v ← getitem wc "v"; a ← getitem wc "a"; vp ← getitem wc "vp";
             ap ← getitem wc "ap"; Ok ((v + a) - (vp + ap))%C);
  let A : gmap (string * string) C := ∅ in
  x ← (s ← py_sqrt 2; h ← getitem ha "+V-+"; c7 ← getitem wc "7"; c7p ← getitem wc "7p";
       d ← Cdiv (RtoC (2 * mqh) * (c7 + c7p)) (RtoC q2); t ← getitem ha "+T-+";
       Ok (RtoC s * (C910Lpl * RtoC h - d * RtoC t))%C);
  let A := <[("perp1", "L") := x]> A in
  x ← (s ← py_sqrt 2; h ← getitem ha "+V-+"; c7 ← getitem wc "7"; c7p ← getitem wc "7p";
       d ← Cdiv (RtoC (2 * mqh) * (c7 + c7p)) (RtoC q2); t ← getitem ha "+T-+";
       Ok (RtoC s * (C910Rpl * RtoC h - d * RtoC t))%C);
  let A := <[("perp1", "R") := x]> A in
  x ← (s ← py_sqrt 2; h ← getitem ha "+A-+"; c7 ← getitem wc "7"; c7p ← getitem wc "7p";
       d ← Cdiv (RtoC (2 * mqh) * (c7 - c7p)) (RtoC q2); t ← getitem ha "+T5-+";
       Ok (RtoC (- s) * (C910Lmi * RtoC h + d * RtoC t))%C);
  let A := <[("para1", "L") := x]> A in
  x ← (s ← py_sqrt 2; h ← getitem ha "+A-+"; c7 ← getitem wc "7"; c7p ← getitem wc "7p";
       d ← Cdiv (RtoC (2 * mqh) * (c7 - c7p)) (RtoC q2); t ← getitem ha "+T5-+";
       Ok (RtoC (- s) * (C910Rmi * RtoC h + d * RtoC t))%C);
  let A := <[("para1", "R") := x]> A in
  x ← (s ← py_sqrt 2; h ← getitem ha "0V++"; c7 ← getitem wc "7"; c7p ← getitem wc "7p";
       d ← Cdiv (RtoC (2 * mqh) * (c7 + c7p)) (RtoC q2); t ← getitem ha "0T++";
       Ok (RtoC s * (C910Lpl * RtoC h - d * RtoC t))%C);
  let A := <[("perp0", "L") := x]> A in
  x ← (s ← py_sqrt 2; h ← getitem ha "0V++"; c7 ← getitem wc "7"; c7p ← getitem wc "7p";
       d ← Cdiv (RtoC (2 * mqh) * (c7 + c7p)) (RtoC q2); t ← getitem ha "0T++";
       Ok (RtoC s * (C910Rpl * RtoC h - d * RtoC t))%C);
  let A := <[("perp0", "R") := x]> A in
  x ← (s ← py_sqrt 2; h ← getitem ha "0A++"; c7 ← getitem wc "7"; c7p ← getitem wc "7p";
       d ← Cdiv (RtoC (2 * mqh) * (c7 - c7p)) (RtoC q2); t ← getitem ha "0T5++";
       Ok (RtoC (- s) * (C910Lmi * RtoC h + d * RtoC t))%C);
  let A := <[("para0", "L") := x]> A in
  x ← (s ← py_sqrt 2; h ← getitem ha "0A++"; c7 ← getitem wc "7"; c7p ← getitem wc "7p";
       d ← Cdiv (RtoC (2 * mqh) * (c7 - c7p)) (RtoC q2); t ← getitem ha "0T5++";
       Ok (RtoC (- s) * (C910Rmi * RtoC h + d * RtoC t))%C);
  let A := <[("para0", "R") := x]> A in
  Ok ((fun v => prefactor * v)%C <$> A).

(** ** Angular coefficients (source lines 62-100) *)

Definition angular_coefficients (ta : gmap (string * string) C) (alpha : R)
  : result (gmap string R) :=
  let K : gmap string R := ∅ in
  x ← (p1R ← getitem ta ("perp1", "R"); p1L ← getitem ta ("perp1", "L");
       a1R ← getitem ta ("para1", "R"); a1L ← getitem ta ("para1", "L");
       p0R ← getitem ta ("perp0", "R"); p0L ← getitem ta ("perp0", "L");
       a0R ← getitem ta ("para0", "R"); a0L ← getitem ta ("para0", "L");
       Ok (1 / 4 * (Cabs p1R ^ 2 + Cabs p1L ^ 2
                    + Cabs a1R ^ 2 + Cabs a1L ^ 2
                    + 2 * Cabs p0R ^ 2 + 2 * Cabs p0L ^ 2
                    + 2 * Cabs a0R ^ 2 + 2 * Cabs a0L ^ 2)));
  let K := <["1ss" := x]> K in
  x ← (p1R ← getitem ta ("perp1", "R"); p1L ← getitem ta ("perp1", "L");
       a1R ← getitem ta ("para1", "R"); a1L ← getitem ta ("para1", "L");
       Ok (1 / 2 * (Cabs p1R ^ 2 + Cabs p1L ^ 2
                    + Cabs a1R ^ 2 + Cabs a1L ^ 2)));
  let K := <["1cc" := x]> K in
  x ← (p1R ← getitem ta ("perp1", "R"); a1R ← getitem ta ("para1", "R");
       p1L ← getitem ta ("perp1", "L"); a1L ← getitem ta ("para1", "L");
       Ok (- real (p1R * conj a1R - p1L * conj a1L)%C));
  let K := <["1c" := x]> K in
  x ← (p1R ← getitem ta ("perp1", "R"); a1R ← getitem ta ("para1", "R");
       p0R ← getitem ta ("perp0", "R"); a0R ← getitem ta ("para0", "R");
       p1L ← getitem ta ("perp1", "L"); a1L ← getitem ta ("para1", "L");
       p0L ← getitem ta ("perp0", "L"); a0L ← getitem ta ("para0", "L");
       Ok (alpha / 2 * real (p1R * conj a1R
                             + RtoC 2 * p0R * conj a0R
                             + p1L * conj a1L
                             + RtoC 2 * p0L * conj a0L)%C));
  let K := <["2ss" := x]> K in
  x ← (p1R ← getitem ta ("perp1", "R"); a1R ← getitem ta ("para1", "R");
       p1L ← getitem ta ("perp1", "L"); a1L ← getitem ta ("para1", "L");
       Ok (alpha * real (p1R * conj a1R + p1L * conj a1L)%C));
  let K := <["2cc" := x]> K in
  x ← (p1R ← getitem ta ("perp1", "R"); p1L ← getitem ta ("perp1", "L");
       a1R ← getitem ta ("para1", "R"); a1L ← getitem ta ("para1", "L");
       Ok (- alpha / 2 * (Cabs p1R ^ 2 - Cabs p1L ^ 2
                          + Cabs a1R ^ 2 - Cabs a1L ^ 2)));
  let K := <["2c" := x]> K in
  s ← py_sqrt 2; q ← py_div alpha s;
  x ← (p1R ← getitem ta ("perp1", "R"); p0R ← getitem ta ("perp0", "R");
       a1R ← getitem ta ("para1", "R"); a0R ← getitem ta ("para0", "R");
       p1L ← getitem ta ("perp1", "L"); p0L ← getitem ta ("perp0", "L");
       a1L ← getitem ta ("para1", "L"); a0L ← getitem ta ("para0", "L");
       Ok (q * imag (p1R * conj p0R - a1R * conj a0R
                     + p1L * conj p0L - a1L * conj a0L)%C));
  let K := <["3sc" := x]> K in
  s ← py_sqrt 2; q ← py_div alpha s;
  x ← (p1R ← getitem ta ("perp1", "R"); a0R ← getitem ta ("para0", "R");
       a1R ← getitem ta ("para1", "R"); p0R ← getitem ta ("perp0", "R");
       p1L ← getitem ta ("perp1", "L"); a0L ← getitem ta ("para0", "L");
       a1L ← getitem ta ("para1", "L"); p0L ← getitem ta ("perp0", "L");
       Ok (q * imag (p1R * conj a0R - a1R * conj p0R
                     - p1L * conj a0L + a1L * conj p0L)%C));
  let K := <["3s" := x]> K in
  s ← py_sqrt 2; q ← py_div alpha s;
  x ← (p1R ← getitem ta ("perp1", "R"); a0R ← getitem ta ("para0", "R");
       a1R ← getitem ta ("para1", "R"); p0R ← getitem ta ("perp0", "R");
       p1L ← getitem ta ("perp1", "L"); a0L ← getitem ta ("para0", "L");
       a1L ← getitem ta ("para1", "L"); p0L ← getitem ta ("perp0", "L");
       Ok (q * imag (p1R * conj a0R - a1R * conj p0R
                     + p1L * conj a0L - a1L * conj p0L)%C));
  let K := <["4sc" := x]> K in
  s ← py_sqrt 2; q ← py_div alpha s;
  x ← (p1R ← getitem ta ("perp1", "R"); p0R ← getitem ta ("perp0", "R");
       a1R ← getitem ta ("para1", "R"); a0R ← getitem ta ("para0", "R");
       p1L ← getitem ta ("perp1", "L"); p0L ← getitem ta ("perp0", "L");
       a1L ← getitem ta ("para1", "L"); a0L ← getitem ta ("para0", "L");
       Ok (q * imag (p1R * conj p0R - a1R * conj a0R
                     - p1L * conj p0L + a1L * conj a0L)%C));
  let K := <["4s" := x]> K in
  Ok K.

(** ** Parameter tables and the external collaborators *)

(** Keys of a parameter table: strings such as ['m_Lambdab'] and tuples of
    strings such as [('formfactor','B->K','a0_f+')]. *)
Inductive pkey : Type :=
  | PStr (s : string)
  | PTup (t : list string).

#[export] Instance pkey_eq_dec : EqDecision pkey.
Proof. solve_decision. Defined.

#[export] Instance pkey_countable : Countable pkey.
Proof.
  refine (inj_countable'
            (fun k => match k with PStr s => inl s | PTup t => inr t end)
            (fun x => match x with inl s => PStr s | inr t => PTup t end) _).
  intros []; reflexivity.
Defined.

(** The routines this module calls in the rest of the package.  Each may
    raise. *)
Class Collaborators : Type := {
  (** the type of [wc_obj] *)
  WilsonCoefficients : Type;
  (** [flavio.config['renormalization scale'][name]] *)
  config_renormalization_scale : string -> result R;
  (** [flavio.physics.running.running.get_mb(par, scale)] *)
  get_mb : gmap pkey R -> R -> result R;
  (** [AuxiliaryQuantity.get_instance(name).prediction(par_dict, None, q2)] *)
  aux_prediction : string -> gmap pkey R -> R -> result (gmap string R);
  (** [wilsoncoefficients.wctot_dict(wc_obj, sector, scale, par)] *)
  wctot_dict :
    WilsonCoefficients -> string -> R -> gmap pkey R -> result (gmap string C);
  (** [wilsoncoefficients.get_wceff(q2, wc, par, B, M, lep, scale)] *)
  get_wceff :
    R -> gmap string C -> gmap pkey R -> string -> string -> string -> R ->
    result (gmap string C);
  (** [flavio.physics.ckm.xi(a, b)(par)] *)
  xi : string -> string -> gmap pkey R -> result C;
  (** [flavio.physics.running.running.get_alpha(par, scale)] *)
  get_alpha : gmap pkey R -> R -> result (gmap string R);
  (** [flavio.physics.bdecays.common.lambda_K(a, b, c)] *)
  lambda_K : R -> R -> R -> R;
  (** [conjugate_par] of [flavio.physics.common]: what the call on source
      line 106 would reach if the name were bound *)
  conjugate_par : gmap pkey R -> result (gmap pkey R);
  (** [flavio.math.integrate.nintegrate(f, a, b)] *)
  nintegrate : (R -> result R) -> R -> R -> result R
}.

(** The global names of the module when its functions run: the imports of
    source lines 3-7 and the module's own top-level bindings. *)
Definition module_names : list string :=
  [ "flavio"; "sqrt"; "pi"; "lambda_K"; "beta_l"; "meson_quark"; "meson_ff";
    "Observable"; "Prediction"; "AuxiliaryQuantity"; "warnings";
    "helicity_amps"; "transverity_amps"; "angular_coefficients";
    "get_transverity_amps"; "get_obs"; "dGdq2"; "dbrdq2"; "dbrdq2_int";
    "dbrdq2_int_func"; "dbrdq2_func"; "_tex"; "l"; "_obs_name"; "_obs" ]%string.

(** Loading a global name inside a function of the module; no Python
    builtin is named [conjugate_par], so the module's own names decide. *)
Definition load_name (name : string) : result unit :=
  if existsb (String.eqb name) module_names then Ok tt else Raise NameError.

(** [x ** (1/4.)] for a float [x]: real for [x >= 0], the principal complex
    root for [x < 0]. *)
Definition pow_quarter (x : R) : C :=
  if Rlt_dec x 0 then
    mkC (Rpower (- x) (1 / 4) * cos (PI / 4)) (Rpower (- x) (1 / 4) * sin (PI / 4))
  else if Req_dec_T x 0 then RtoC 0
  else RtoC (Rpower x (1 / 4)).

Section Orchestrator.

Context `{E : Collaborators}.

(** ** get_transverity_amps (source lines 103-121) *)

Definition get_transverity_amps (q2 : R) (wc_obj : WilsonCoefficients)
    (par_dict : gmap pkey R) (lep : string) (cp_conjugate : bool)
  : result (gmap (string * string) C) :=
  let par := par_dict in
  par ← (if cp_conjugate
         then (_ ← load_name "conjugate_par"; conjugate_par par)
         else Ok par);
  scale ← config_renormalization_scale "lambdab";
  mLb ← getitem par (PStr "m_Lambdab");
  mL ← getitem par (PStr "m_Lambda");
  mb ← get_mb par scale;
  ff ← aux_prediction "Lambdab->Lambda form factor" par q2;
  wc ← wctot_dict wc_obj (("bs" +:+ lep) +:+ lep) scale par;
  wc_eff ← get_wceff q2 wc par "Lambdab" "Lambda" lep scale;
  ha ← helicity_amps q2 mLb mL ff;
  xi_t ← xi "t" "bs" par;
  alphaem ← (d ← get_alpha par scale; getitem d "alpha_e");
  let la_K := lambda_K (mLb ^ 2) (mL ^ 2) q2 in
  N ← (GF ← getitem par (PStr "GF");
       s ← py_sqrt q2;
       let p := pow_quarter la_K in
       d ← py_sqrt (3 * 2 * mLb ^ 3 * PI ^ 5);
       n ← Cdiv (RtoC GF * xi_t * RtoC alphaem * RtoC s * p)%C (RtoC d);
       Cdiv n (RtoC 32));
  ta_ff ← transverity_amps ha q2 mLb mL mb 0 wc_eff N;
  Ok ta_ff.

(** ** get_obs (source lines 123-132) *)

Definition get_obs (function : gmap string R -> result R) (q2 : R)
    (wc_obj : WilsonCoefficients) (par : gmap pkey R) (lep : string)
  : result R :=
  ml ← getitem par (PStr ("m_" +:+ lep));
  mLb ← getitem par (PStr "m_Lambdab");
  mL ← getitem par (PStr "m_Lambda");
  if Rlt_dec q2 (4 * ml ^ 2) then Ok 0
  else if Rgt_dec q2 ((mLb - mL) ^ 2) then Ok 0
  else
    ta ← get_transverity_amps q2 wc_obj par lep false;
    alpha ← getitem par (PStr "Lambda->ppi alpha_-");
    K ← angular_coefficients ta alpha;
    function K.

(** ** dGdq2, dbrdq2, dbrdq2_int (source lines 134-144) *)

Definition dGdq2 (K : gmap string R) : result R :=
  k1ss ← getitem K "1ss"; k1cc ← getitem K "1cc"; Ok (2 * k1ss + k1cc).

Definition dbrdq2 (q2 : R) (wc_obj : WilsonCoefficients)
    (par : gmap pkey R) (lep : string) : result R :=
  tauLb ← getitem par (PStr "tau_Lambdab");
  o ← get_obs dGdq2 q2 wc_obj par lep;
  Ok (tauLb * o).

Definition dbrdq2_int (q2min q2max : R) (wc_obj : WilsonCoefficients)
    (par : gmap pkey R) (lep : string) : result R :=
  let obs := fun q2 => dbrdq2 q2 wc_obj par lep in
  i ← nintegrate obs q2min q2max;
  py_div i (q2max - q2min).

End Orchestrator.

(** ** Entry sets read off a dictionary *)

(** The eight form factors of a form-factor set. *)
Record FormFactors : Type := mkFF {
  fV0 : R; fVperp : R; fA0 : R; fAperp : R;
  fT0 : R; fTperp : R; fT50 : R; fT5perp : R
}.

Definition ff_entries (ff : gmap string R) (f : FormFactors) : Prop :=
  ff !! "fV0" = Some (fV0 f) /\ ff !! "fVperp" = Some (fVperp f) /\
  ff !! "fA0" = Some (fA0 f) /\ ff !! "fAperp" = Some (fAperp f) /\
  ff !! "fT0" = Some (fT0 f) /\ ff !! "fTperp" = Some (fTperp f) /\
  ff !! "fT50" = Some (fT50 f) /\ ff !! "fT5perp" = Some (fT5perp f).

(** The eight helicity amplitudes that [transverity_amps] reads. *)
Record HelicityPlus : Type := mkHP {
  h_0Vpp : R; h_pVmp : R; h_0App : R; h_pAmp : R;
  h_0Tpp : R; h_pTmp : R; h_0T5pp : R; h_pT5mp : R
}.

Definition ha_entries (ha : gmap string R) (h : HelicityPlus) : Prop :=
  ha !! "0V++" = Some (h_0Vpp h) /\ ha !! "+V-+" = Some (h_pVmp h) /\
  ha !! "0A++" = Some (h_0App h) /\ ha !! "+A-+" = Some (h_pAmp h) /\
  ha !! "0T++" = Some (h_0Tpp h) /\ ha !! "+T-+" = Some (h_pTmp h) /\
  ha !! "0T5++" = Some (h_0T5pp h) /\ ha !! "+T5-+" = Some (h_pT5mp h).

(** The six effective Wilson coefficients. *)
Record WilsonBundle : Type := mkWB {
  c_v : C; c_a : C; c_vp : C; c_ap : C; c_7 : C; c_7p : C
}.

Definition wc_entries (wc : gmap string C) (w : WilsonBundle) : Prop :=
  wc !! "v" = Some (c_v w) /\ wc !! "a" = Some (c_a w) /\
  wc !! "vp" = Some (c_vp w) /\ wc !! "ap" = Some (c_ap w) /\
  wc !! "7" = Some (c_7 w) /\ wc !! "7p" = Some (c_7p w).

(** The eight transversity amplitudes. *)
Record Transversity : Type := mkTA {
  perp1R : C; perp1L : C; para1R : C; para1L : C;
  perp0R : C; perp0L : C; para0R : C; para0L : C
}.

Definition ta_entries (ta : gmap (string * string) C) (t : Transversity) : Prop :=
  ta !! ("perp1", "R") = Some (perp1R t) /\ ta !! ("perp1", "L") = Some (perp1L t) /\
  ta !! ("para1", "R") = Some (para1R t) /\ ta !! ("para1", "L") = Some (para1L t) /\
  ta !! ("perp0", "R") = Some (perp0R t) /\ ta !! ("perp0", "L") = Some (perp0L t) /\
  ta !! ("para0", "R") = Some (para0R t) /\ ta !! ("para0", "L") = Some (para0L t).

(** ** The specification's formulas, as written in the specification *)

Module Spec.

(** Section 4.1: [sp], [sm] and the coefficient table, each value being
    form factor x kinematic factor. *)
Definition sp (q2 mLb mL : R) : R := (mLb + mL) ^ 2 - q2.
Definition sm (q2 mLb mL : R) : R := (mLb - mL) ^ 2 - q2.

Definition H_0Vpp (q2 mLb mL : R) (f : FormFactors) : R :=
  fV0 f * ((mLb + mL) / sqrt q2 * sqrt (sm q2 mLb mL)).
Definition H_pVmp (q2 mLb mL : R) (f : FormFactors) : R :=
  fVperp f * (- sqrt (2 * sm q2 mLb mL)).
Definition H_0App (q2 mLb mL : R) (f : FormFactors) : R :=
  fA0 f * ((mLb - mL) / sqrt q2 * sqrt (sp q2 mLb mL)).
Definition H_pAmp (q2 mLb mL : R) (f : FormFactors) : R :=
  fAperp f * (- sqrt (2 * sp q2 mLb mL)).
Definition H_0Tpp (q2 mLb mL : R) (f : FormFactors) : R :=
  fT0 f * (- sqrt q2 * sqrt (sm q2 mLb mL)).
Definition H_pTmp (q2 mLb mL : R) (f : FormFactors) : R :=
  fTperp f * ((mLb + mL) * sqrt (2 * sm q2 mLb mL)).
Definition H_0T5pp (q2 mLb mL : R) (f : FormFactors) : R :=
  fT50 f * (sqrt q2 * sqrt (sp q2 mLb mL)).
Definition H_pT5mp (q2 mLb mL : R) (f : FormFactors) : R :=
  fT5perp f * (- (mLb - mL) * sqrt (2 * sp q2 mLb mL)).

(** Section 4.2: chirality combinations and the four channels.  A real
    number times a complex number scales both parts. *)
Definition Cscale (r : R) (z : C) : C := mkC (r * real z) (r * imag z).

Definition C_L_pl (w : WilsonBundle) : C := ((c_v w - c_a w) + (c_vp w - c_ap w))%C.
Definition C_L_mi (w : WilsonBundle) : C := ((c_v w - c_a w) - (c_vp w - c_ap w))%C.
Definition C_R_pl (w : WilsonBundle) : C := ((c_v w + c_a w) + (c_vp w + c_ap w))%C.
Definition C_R_mi (w : WilsonBundle) : C := ((c_v w + c_a w) - (c_vp w + c_ap w))%C.

Definition perp (N : C) (q2 mqh : R) (w : WilsonBundle) (C_pl : C) (hV hT : R) : C :=
  (N * Cscale (sqrt 2)
         (Cscale hV C_pl - Cscale (2 * mqh / q2 * hT) (c_7 w + c_7p w)))%C.

Definition para (N : C) (q2 mqh : R) (w : WilsonBundle) (C_mi : C) (hA hT5 : R) : C :=
  (N * Cscale (- sqrt 2)
         (Cscale hA C_mi + Cscale (2 * mqh / q2 * hT5) (c_7 w - c_7p w)))%C.

Definition transversity (N : C) (q2 mqh : R) (w : WilsonBundle) (h : HelicityPlus)
  : gmap (string * string) C :=
  <[("para0", "R") := para N q2 mqh w (C_R_mi w) (h_0App h) (h_0T5pp h)]>
  (<[("para0", "L") := para N q2 mqh w (C_L_mi w) (h_0App h) (h_0T5pp h)]>
  (<[("perp0", "R") := perp N q2 mqh w (C_R_pl w) (h_0Vpp h) (h_0Tpp h)]>
  (<[("perp0", "L") := perp N q2 mqh w (C_L_pl w) (h_0Vpp h) (h_0Tpp h)]>
  (<[("para1", "R") := para N q2 mqh w (C_R_mi w) (h_pAmp h) (h_pT5mp h)]>
  (<[("para1", "L") := para N q2 mqh w (C_L_mi w) (h_pAmp h) (h_pT5mp h)]>
  (<[("perp1", "R") := perp N q2 mqh w (C_R_pl w) (h_pVmp h) (h_pTmp h)]>
  (<[("perp1", "L") := perp N q2 mqh w (C_L_pl w) (h_pVmp h) (h_pTmp h)]>
   ∅))))))).

(** Section 4.3: magnitude squared is the amplitude times its own
    conjugate; the ten bilinear formulas. *)
Definition mag2 (z : C) : R := real (z * conj z)%C.

Definition K_1ss (t : Transversity) : R :=
  1 / 4 * (mag2 (perp1R t) + mag2 (perp1L t) + mag2 (para1R t) + mag2 (para1L t)
           + 2 * mag2 (perp0R t) + 2 * mag2 (perp0L t)
           + 2 * mag2 (para0R t) + 2 * mag2 (para0L t)).

Definition K_1cc (t : Transversity) : R :=
  1 / 2 * (mag2 (perp1R t) + mag2 (perp1L t) + mag2 (para1R t) + mag2 (para1L t)).

Definition K_1c (t : Transversity) : R :=
  - real (perp1R t * conj (para1R t) - perp1L t * conj (para1L t))%C.

Definition K_2ss (t : Transversity) (alpha : R) : R :=
  alpha / 2 * real (perp1R t * conj (para1R t)
                    + Cscale 2 (perp0R t * conj (para0R t))
                    + perp1L t * conj (para1L t)
                    + Cscale 2 (perp0L t * conj (para0L t)))%C.

Definition K_2cc (t : Transversity) (alpha : R) : R :=
  alpha * real (perp1R t * conj (para1R t) + perp1L t * conj (para1L t))%C.

Definition K_2c (t : Transversity) (alpha : R) : R :=
  - (alpha / 2) * (mag2 (perp1R t) - mag2 (perp1L t)
                   + mag2 (para1R t) - mag2 (para1L t)).

Definition K_3sc (t : Transversity) (alpha : R) : R :=
  alpha / sqrt 2 * imag (perp1R t * conj (perp0R t) - para1R t * conj (para0R t)
                         + perp1L t * conj (perp0L t) - para1L t * conj (para0L t))%C.

Definition K_3s (t : Transversity) (alpha : R) : R :=
  alpha / sqrt 2 * imag (perp1R t * conj (para0R t) - para1R t * conj (perp0R t)
                         - perp1L t * conj (para0L t) + para1L t * conj (perp0L t))%C.

Definition K_4sc (t : Transversity) (alpha : R) : R :=
  alpha / sqrt 2 * imag (perp1R t * conj (para0R t) - para1R t * conj (perp0R t)
                         + perp1L t * conj (para0L t) - para1L t * conj (perp0L t))%C.

Definition K_4s (t : Transversity) (alpha : R) : R :=
  alpha / sqrt 2 * imag (perp1R t * conj (perp0R t) - para1R t * conj (para0R t)
                         - perp1L t * conj (perp0L t) + para1L t * conj (para0L t))%C.

Definition angular (t : Transversity) (alpha : R) : gmap string R :=
  <["4s" := K_4s t alpha]> (<["4sc" := K_4sc t alpha]>
  (<["3s" := K_3s t alpha]> (<["3sc" := K_3sc t alpha]>
  (<["2c" := K_2c t alpha]> (<["2cc" := K_2cc t alpha]>
  (<["2ss" := K_2ss t alpha]> (<["1c" := K_1c t]>
  (<["1cc" := K_1cc t]> (<["1ss" := K_1ss t]> ∅))))))))).

End Spec.

(** ** Closed forms used in the proofs *)

(** The sixteen-entry dictionary built from eight independent values by
    source lines 25-32. *)
Definition helicity_dict (h : HelicityPlus) : gmap string R :=
  <["+T5+-" := - h_pT5mp h]> (<["0T5--" := - h_0T5pp h]>
  (<["+T+-" := h_pTmp h]> (<["0T--" := h_0Tpp h]>
  (<["+A+-" := - h_pAmp h]> (<["0A--" := - h_0App h]>
  (<["+V+-" := h_pVmp h]> (<["0V--" := h_0Vpp h]>
  (<["+T5-+" := h_pT5mp h]> (<["0T5++" := h_0T5pp h]>
  (<["+T-+" := h_pTmp h]> (<["0T++" := h_0Tpp h]>
  (<["+A-+" := h_pAmp h]> (<["0A++" := h_0App h]>
  (<["+V-+" := h_pVmp h]> (<["0V++" := h_0Vpp h]> ∅))))))))))))))).

(** The eight independent values as source lines 17-24 compute them. *)
Definition helicity_plus (q2 mLb mL : R) (f : FormFactors) : HelicityPlus :=
  let sp := (mLb + mL) ^ 2 - q2 in
  let sm := (mLb - mL) ^ 2 - q2 in
  {| h_0Vpp := fV0 f * (mLb + mL) / sqrt q2 * sqrt sm;
     h_pVmp := - fVperp f * sqrt (2 * sm);
     h_0App := fA0 f * (mLb - mL) / sqrt q2 * sqrt sp;
     h_pAmp := - fAperp f * sqrt (2 * sp);
     h_0Tpp := - fT0 f * sqrt q2 * sqrt sm;
     h_pTmp := fTperp f * (mLb + mL) * sqrt (2 * sm);
     h_0T5pp := fT50 f * sqrt q2 * sqrt sp;
     h_pT5mp := - fT5perp f * (mLb - mL) * sqrt (2 * sp) |}.

(** ** Sample inputs *)

Definition ff_ones : gmap string R :=
  <["fT5perp" := 1]> (<["fT50" := 1]> (<["fTperp" := 1]> (<["fT0" := 1]>
  (<["fAperp" := 1]> (<["fA0" := 1]> (<["fVperp" := 1]> (<["fV0" := 1]> ∅))))))).

Definition ones : FormFactors := mkFF 1 1 1 1 1 1 1 1.

Definition hp_ones : HelicityPlus := mkHP 1 1 1 1 1 1 1 1.

Definition wc_ones : gmap string C :=
  <["7p" := RtoC 1]> (<["7" := RtoC 1]> (<["ap" := RtoC 1]> (<["vp" := RtoC 1]>
  (<["a" := RtoC 1]> (<["v" := RtoC 1]> ∅))))).

Definition wb_ones : WilsonBundle :=
  mkWB (RtoC 1) (RtoC 1) (RtoC 1) (RtoC 1) (RtoC 1) (RtoC 1).

Definition ta_zero : gmap (string * string) C :=
  <[("para0", "L") := RtoC 0]> (<[("para0", "R") := RtoC 0]>
  (<[("perp0", "L") := RtoC 0]> (<[("perp0", "R") := RtoC 0]>
  (<[("para1", "L") := RtoC 0]> (<[("para1", "R") := RtoC 0]>
  (<[("perp1", "L") := RtoC 0]> (<[("perp1", "R") := RtoC 0]> ∅))))))).

Definition t_zero : Transversity :=
  mkTA (RtoC 0) (RtoC 0) (RtoC 0) (RtoC 0) (RtoC 0) (RtoC 0) (RtoC 0) (RtoC 0).

(** A parameter table: [m_mu = 1/4], [m_Lambdab = 2], [m_Lambda = 1], so the
    kinematic window is [1/4, 1]. *)
Definition par_sample : gmap pkey R :=
  <[PStr "Lambda->ppi alpha_-" := 1 / 2]> (<[PStr "tau_Lambdab" := 3]>
  (<[PStr "GF" := 1]> (<[PStr "m_Lambda" := 1]> (<[PStr "m_Lambdab" := 2]>
  (<[PStr "m_mu" := 1 / 4]> ∅))))).

(** Collaborators that always succeed: constant form factors and Wilson
    coefficients, the Kallen function for [lambda_K], and the midpoint rule
    for [nintegrate]. *)
Definition toy : Collaborators := {|
  WilsonCoefficients := unit;
  config_renormalization_scale := fun _ => Ok 4;
  get_mb := fun _ _ => Ok 4;
  aux_prediction := fun _ _ _ => Ok ff_ones;
  wctot_dict := fun _ _ _ _ => Ok wc_ones;
  get_wceff := fun _ wc _ _ _ _ _ => Ok wc;
  xi := fun _ _ _ => Ok (RtoC 1);
  get_alpha := fun _ _ => Ok (<["alpha_e" := 1]> ∅);
  lambda_K := fun a b c => a ^ 2 + b ^ 2 + c ^ 2 - 2 * (a * b + b * c + a * c);
  conjugate_par := fun par => Ok par;
  nintegrate := fun f a b => v ← f ((a + b) / 2); Ok ((b - a) * v)
|}.

(** A Wilson bundle without axial couplings. *)
Definition wc_vector : gmap string C :=
  <["7p" := RtoC 1]> (<["7" := RtoC 1]> (<["ap" := RtoC 0]> (<["vp" := RtoC 1]>
  (<["a" := RtoC 0]> (<["v" := RtoC 1]> ∅))))).

Definition wb_vector : WilsonBundle :=
  mkWB (RtoC 1) (RtoC 0) (RtoC 1) (RtoC 0) (RtoC 1) (RtoC 1).

(** ** The functions handed to the prediction registry (source lines 153-156) *)

Section Closures.

Context `{E : Collaborators}.

Definition dbrdq2_func (lep : string)
  : WilsonCoefficients -> gmap pkey R -> R -> result R :=
  let fct := fun wc_obj par q2 => dbrdq2 q2 wc_obj par lep in
  fct.

End Closures.

(** A parameter table whose window is empty: [4 m_mu^2 = 4 > (2 - 1)^2]. *)
Definition par_heavy : gmap pkey R :=
  <[PStr "m_Lambda" := 1]> (<[PStr "m_Lambdab" := 2]> (<[PStr "m_mu" := 1]> ∅)).

(** * Properties *)

(** ** Results, square roots and dictionary lookups *)

Lemma getitem_Some {K V : Type} `{Countable K} (d : gmap K V) (k : K) (v : V) :
  d !! k = Some v -> getitem d k = Ok v.
Proof. intros Hk. unfold getitem. rewrite Hk. reflexivity. Qed.

Lemma py_sqrt_nonneg (x : R) : 0 <= x -> py_sqrt x = Ok (sqrt x).
Proof. intros Hx. unfold py_sqrt. destruct (Rlt_dec x 0); [lra | reflexivity]. Qed.

Lemma py_div_nonzero (a b : R) : b <> 0 -> py_div a b = Ok (a / b).
Proof.
  intros Hb. unfold py_div. destruct (Req_dec_T b 0); [contradiction | reflexivity].
Qed.

Lemma sqrt_pos_neq (x : R) : 0 < x -> sqrt x <> 0.
Proof. intros Hx. apply Rgt_not_eq, sqrt_lt_R0, Hx. Qed.

(** Runs a monadic computation whose steps all succeed: [side] proves the
    arithmetic side conditions. *)
Ltac run_with side :=
  repeat (cbn [mbind result_bind];
          first [ rewrite py_sqrt_nonneg by side
                | rewrite py_div_nonzero by (apply sqrt_pos_neq; side)
                | erewrite getitem_Some by (simplify_map_eq; reflexivity) ]);
  cbn [mbind result_bind].

(** ** Helicity amplitudes *)

Lemma helicity_amps_eq (q2 mLb mL : R) (ff : gmap string R) (f : FormFactors) :
  0 <= mL -> mL <= mLb -> 0 < q2 -> q2 <= (mLb - mL) ^ 2 -> ff_entries ff f ->
  helicity_amps q2 mLb mL ff = Ok (helicity_dict (helicity_plus q2 mLb mL f)).
Proof.
  intros HmL Hm Hq Hw (H1 & H2 & H3 & H4 & H5 & H6 & H7 & H8).
  assert (Hsm : 0 <= (mLb - mL) ^ 2 - q2) by lra.
  assert (Hsp : 0 <= (mLb + mL) ^ 2 - q2) by nra.
  unfold helicity_amps.
  rewrite !(getitem_Some ff _ _ H1), !(getitem_Some ff _ _ H2),
    !(getitem_Some ff _ _ H3), !(getitem_Some ff _ _ H4),
    !(getitem_Some ff _ _ H5), !(getitem_Some ff _ _ H6),
    !(getitem_Some ff _ _ H7), !(getitem_Some ff _ _ H8).
  run_with lra.
  reflexivity.
Qed.

Lemma helicity_dict_plus (h : HelicityPlus) : ha_entries (helicity_dict h) h.
Proof. unfold ha_entries, helicity_dict. repeat split; simplify_map_eq; reflexivity. Qed.

(** C3. For masses [0 <= mL <= mLb] and [0 < q2 <= (mLb - mL)^2],
    [helicity_amps] returns a dictionary whose eight "+helicity" entries are
    the specification's table values: form factor times kinematic factor,
    with [sp = (mLb+mL)^2 - q2] and [sm = (mLb-mL)^2 - q2]. *)
Theorem helicity_amps_table (q2 mLb mL : R) (ff : gmap string R) (f : FormFactors) :
  0 <= mL -> mL <= mLb -> 0 < q2 -> q2 <= (mLb - mL) ^ 2 -> ff_entries ff f ->
  exists H : gmap string R,
    helicity_amps q2 mLb mL ff = Ok H /\
    H !! "0V++" = Some (Spec.H_0Vpp q2 mLb mL f) /\
    H !! "+V-+" = Some (Spec.H_pVmp q2 mLb mL f) /\
    H !! "0A++" = Some (Spec.H_0App q2 mLb mL f) /\
    H !! "+A-+" = Some (Spec.H_pAmp q2 mLb mL f) /\
    H !! "0T++" = Some (Spec.H_0Tpp q2 mLb mL f) /\
    H !! "+T-+" = Some (Spec.H_pTmp q2 mLb mL f) /\
    H !! "0T5++" = Some (Spec.H_0T5pp q2 mLb mL f) /\
    H !! "+T5-+" = Some (Spec.H_pT5mp q2 mLb mL f).
Proof.
  intros HmL Hm Hq Hw Hff.
  exists (helicity_dict (helicity_plus q2 mLb mL f)).
  split; [apply helicity_amps_eq; assumption |].
  assert (Hs : sqrt q2 <> 0) by (apply sqrt_pos_neq; exact Hq).
  destruct (helicity_dict_plus (helicity_plus q2 mLb mL f))
    as (E1 & E2 & E3 & E4 & E5 & E6 & E7 & E8).
  rewrite E1, E2, E3, E4, E5, E6, E7, E8.
  unfold Spec.H_0Vpp, Spec.H_pVmp, Spec.H_0App, Spec.H_pAmp, Spec.H_0Tpp,
    Spec.H_pTmp, Spec.H_0T5pp, Spec.H_pT5mp, Spec.sp, Spec.sm.
  cbn [helicity_plus h_0Vpp h_pVmp h_0App h_pAmp h_0Tpp h_pTmp h_0T5pp h_pT5mp].
  repeat split; f_equal; first [ring | field; exact Hs].
Qed.

Lemma helicity_amps_table_witness :
  exists H : gmap string R,
    helicity_amps 1 2 1 ff_ones = Ok H /\
    H !! "0V++" = Some (Spec.H_0Vpp 1 2 1 ones) /\
    H !! "+V-+" = Some (Spec.H_pVmp 1 2 1 ones) /\
    H !! "0A++" = Some (Spec.H_0App 1 2 1 ones) /\
    H !! "+A-+" = Some (Spec.H_pAmp 1 2 1 ones) /\
    H !! "0T++" = Some (Spec.H_0Tpp 1 2 1 ones) /\
    H !! "+T-+" = Some (Spec.H_pTmp 1 2 1 ones) /\
    H !! "0T5++" = Some (Spec.H_0T5pp 1 2 1 ones) /\
    H !! "+T5-+" = Some (Spec.H_pT5mp 1 2 1 ones).
Proof.
  apply (helicity_amps_table 1 2 1 ff_ones ones); [lra | lra | lra | lra |].
  unfold ff_entries, ff_ones. repeat split; reflexivity.
Defined.

(** C5. For every valid input the sixteen-entry output satisfies the sign
    identities: the V and T entries with flipped helicities equal their
    partners, the A and T5 entries are the negated partners. *)
Theorem helicity_amps_sign_identities
    (q2 mLb mL : R) (ff : gmap string R) (f : FormFactors) :
  0 <= mL -> mL <= mLb -> 0 < q2 -> q2 <= (mLb - mL) ^ 2 -> ff_entries ff f ->
  exists (H : gmap string R) (h : HelicityPlus),
    helicity_amps q2 mLb mL ff = Ok H /\
    ha_entries H h /\
    H !! "0V--" = Some (h_0Vpp h) /\
    H !! "+V+-" = Some (h_pVmp h) /\
    H !! "0T--" = Some (h_0Tpp h) /\
    H !! "+T+-" = Some (h_pTmp h) /\
    H !! "0A--" = Some (- h_0App h) /\
    H !! "+A+-" = Some (- h_pAmp h) /\
    H !! "0T5--" = Some (- h_0T5pp h) /\
    H !! "+T5+-" = Some (- h_pT5mp h).
Proof.
  intros HmL Hm Hq Hw Hff.
  exists (helicity_dict (helicity_plus q2 mLb mL f)), (helicity_plus q2 mLb mL f).
  split; [apply helicity_amps_eq; assumption |].
  split; [apply helicity_dict_plus |].
  unfold helicity_dict. repeat split; simplify_map_eq; reflexivity.
Qed.

Lemma helicity_amps_sign_identities_witness :
  exists (H : gmap string R) (h : HelicityPlus),
    helicity_amps 1 2 1 ff_ones = Ok H /\
    ha_entries H h /\
    H !! "0V--" = Some (h_0Vpp h) /\
    H !! "+V+-" = Some (h_pVmp h) /\
    H !! "0T--" = Some (h_0Tpp h) /\
    H !! "+T+-" = Some (h_pTmp h) /\
    H !! "0A--" = Some (- h_0App h) /\
    H !! "+A+-" = Some (- h_pAmp h) /\
    H !! "0T5--" = Some (- h_0T5pp h) /\
    H !! "+T5+-" = Some (- h_pT5mp h).
Proof.
  apply (helicity_amps_sign_identities 1 2 1 ff_ones ones); [lra | lra | lra | lra |].
  unfold ff_entries, ff_ones. repeat split; reflexivity.
Defined.

(** Outside these hypotheses the square roots can fail: with a negative
    [mL] the invariant [sp] may be negative although [q2] lies below
    [(mLb - mL)^2]. *)
Remark helicity_amps_negative_sp : helicity_amps 1 1 (-1) ff_ones = Raise ValueError.
Proof.
  assert (Hneg : py_sqrt ((1 + -1) ^ 2 - 1) = Raise ValueError).
  { unfold py_sqrt. destruct (Rlt_dec ((1 + -1) ^ 2 - 1) 0); [reflexivity | lra]. }
  unfold helicity_amps.
  repeat (erewrite (getitem_Some ff_ones) by reflexivity).
  rewrite Hneg.
  rewrite !(py_sqrt_nonneg 1) by lra.
  rewrite !(py_sqrt_nonneg ((1 - -1) ^ 2 - 1)) by lra.
  rewrite !(py_sqrt_nonneg (2 * ((1 - -1) ^ 2 - 1))) by lra.
  cbn [mbind result_bind].
  rewrite !py_div_nonzero by (apply sqrt_pos_neq; lra).
  reflexivity.
Qed.

(** ** Transversity amplitudes *)

Lemma C_ext (z w : C) : real z = real w -> imag z = imag w -> z = w.
Proof. destruct z, w; cbn; intros -> ->; reflexivity. Qed.

Lemma Cdiv_real (z : C) (q : R) :
  q <> 0 -> Cdiv z (RtoC q) = Ok (mkC (real z / q) (imag z / q)).
Proof.
  intros Hq. unfold Cdiv, RtoC; cbn [real imag].
  destruct (Req_dec_T (q * q + 0 * 0) 0) as [Hd | Hd]; [nra |].
  f_equal. apply C_ext; cbn [real imag]; field; nra.
Qed.

Lemma insert_ext {K V : Type} `{Countable K} (k : K) (v w : V) (m m' : gmap K V) :
  v = w -> m = m' -> <[k := v]> m = <[k := w]> m'.
Proof. intros -> ->; reflexivity. Qed.

Ltac unfold_C :=
  unfold Spec.perp, Spec.para, Spec.Cscale, Spec.C_L_pl, Spec.C_L_mi,
    Spec.C_R_pl, Spec.C_R_mi, Spec.mag2, Cmul, Cadd, Csub, conj, RtoC;
  cbn [real imag].

Lemma transverity_amps_closed
    (ha : gmap string R) (h : HelicityPlus) (q2 mLb mL mqh mql : R)
    (wc : gmap string C) (w : WilsonBundle) (N : C) :
  q2 <> 0 -> ha_entries ha h -> wc_entries wc w ->
  transverity_amps ha q2 mLb mL mqh mql wc N = Ok (Spec.transversity N q2 mqh w h).
Proof.
  intros Hq0 (E1 & E2 & E3 & E4 & E5 & E6 & E7 & E8) (W1 & W2 & W3 & W4 & W5 & W6).
  unfold transverity_amps.
  rewrite !(getitem_Some wc _ _ W1), !(getitem_Some wc _ _ W2),
    !(getitem_Some wc _ _ W3), !(getitem_Some wc _ _ W4),
    !(getitem_Some wc _ _ W5), !(getitem_Some wc _ _ W6).
  rewrite !(getitem_Some ha _ _ E1), !(getitem_Some ha _ _ E2),
    !(getitem_Some ha _ _ E3), !(getitem_Some ha _ _ E4),
    !(getitem_Some ha _ _ E5), !(getitem_Some ha _ _ E6),
    !(getitem_Some ha _ _ E7), !(getitem_Some ha _ _ E8).
  repeat (cbn [mbind result_bind];
          first [ rewrite py_sqrt_nonneg by lra | rewrite Cdiv_real by exact Hq0 ]).
  cbn [mbind result_bind].
  f_equal. rewrite !fmap_insert, fmap_empty. unfold Spec.transversity.
  repeat (apply insert_ext; [unfold_C; apply C_ext; cbn [real imag]; field; exact Hq0 |]).
  reflexivity.
Qed.

(** C4. For [q2 > 0], a Wilson bundle with the six keys and a helicity set
    with the eight keys read, [transverity_amps] returns exactly the eight
    entries of the specification: the [+] chirality combination in the perp
    channels, the [-] combination in the para channels, the dipole term
    with [2 mqh (c7 +- c7p) / q2], and every entry multiplied by [N]. *)
Theorem transverity_amps_spec
    (ha : gmap string R) (h : HelicityPlus) (q2 mLb mL mqh mql : R)
    (wc : gmap string C) (w : WilsonBundle) (N : C) :
  0 < q2 -> ha_entries ha h -> wc_entries wc w ->
  exists A : gmap (string * string) C,
    transverity_amps ha q2 mLb mL mqh mql wc N = Ok A /\
    A !! ("perp1", "L") = Some (Spec.perp N q2 mqh w (Spec.C_L_pl w) (h_pVmp h) (h_pTmp h)) /\
    A !! ("perp1", "R") = Some (Spec.perp N q2 mqh w (Spec.C_R_pl w) (h_pVmp h) (h_pTmp h)) /\
    A !! ("para1", "L") = Some (Spec.para N q2 mqh w (Spec.C_L_mi w) (h_pAmp h) (h_pT5mp h)) /\
    A !! ("para1", "R") = Some (Spec.para N q2 mqh w (Spec.C_R_mi w) (h_pAmp h) (h_pT5mp h)) /\
    A !! ("perp0", "L") = Some (Spec.perp N q2 mqh w (Spec.C_L_pl w) (h_0Vpp h) (h_0Tpp h)) /\
    A !! ("perp0", "R") = Some (Spec.perp N q2 mqh w (Spec.C_R_pl w) (h_0Vpp h) (h_0Tpp h)) /\
    A !! ("para0", "L") = Some (Spec.para N q2 mqh w (Spec.C_L_mi w) (h_0App h) (h_0T5pp h)) /\
    A !! ("para0", "R") = Some (Spec.para N q2 mqh w (Spec.C_R_mi w) (h_0App h) (h_0T5pp h)) /\
    size A = 8%nat.
Proof.
  intros Hq Hha Hwc. exists (Spec.transversity N q2 mqh w h).
  split; [apply transverity_amps_closed; [lra | exact Hha | exact Hwc] |].
  unfold Spec.transversity.
  repeat (split; [simplify_map_eq; reflexivity |]).
  rewrite !map_size_insert_None by (simplify_map_eq; reflexivity).
  rewrite map_size_empty. reflexivity.
Qed.

Lemma transverity_amps_spec_witness :
  exists A : gmap (string * string) C,
    transverity_amps (helicity_dict hp_ones) 1 2 1 4 0 wc_ones (RtoC 1) = Ok A /\
    A !! ("perp1", "L") = Some (Spec.perp (RtoC 1) 1 4 wb_ones (Spec.C_L_pl wb_ones) 1 1) /\
    A !! ("perp1", "R") = Some (Spec.perp (RtoC 1) 1 4 wb_ones (Spec.C_R_pl wb_ones) 1 1) /\
    A !! ("para1", "L") = Some (Spec.para (RtoC 1) 1 4 wb_ones (Spec.C_L_mi wb_ones) 1 1) /\
    A !! ("para1", "R") = Some (Spec.para (RtoC 1) 1 4 wb_ones (Spec.C_R_mi wb_ones) 1 1) /\
    A !! ("perp0", "L") = Some (Spec.perp (RtoC 1) 1 4 wb_ones (Spec.C_L_pl wb_ones) 1 1) /\
    A !! ("perp0", "R") = Some (Spec.perp (RtoC 1) 1 4 wb_ones (Spec.C_R_pl wb_ones) 1 1) /\
    A !! ("para0", "L") = Some (Spec.para (RtoC 1) 1 4 wb_ones (Spec.C_L_mi wb_ones) 1 1) /\
    A !! ("para0", "R") = Some (Spec.para (RtoC 1) 1 4 wb_ones (Spec.C_R_mi wb_ones) 1 1) /\
    size A = 8%nat.
Proof.
  apply (transverity_amps_spec (helicity_dict hp_ones) hp_ones 1 2 1 4 0
           wc_ones wb_ones (RtoC 1)).
  - lra.
  - unfold ha_entries, helicity_dict. repeat split; reflexivity.
  - unfold wc_entries, wc_ones. repeat split; reflexivity.
Defined.

(** C10. [transverity_amps] does not depend on [mLb], [mL] or [mql]: two
    calls that agree on the other arguments return the same result. *)
Theorem transverity_amps_ignores_masses
    (ha : gmap string R) (q2 mqh : R) (wc : gmap string C) (N : C)
    (mLb mL mql mLb' mL' mql' : R) :
  transverity_amps ha q2 mLb mL mqh mql wc N
  = transverity_amps ha q2 mLb' mL' mqh mql' wc N.
Proof. reflexivity. Qed.

(** ** Angular coefficients *)

Lemma mag2_sum (z : C) : Spec.mag2 z = real z * real z + imag z * imag z.
Proof. unfold Spec.mag2, Cmul, conj; cbn [real imag]. ring. Qed.

Lemma mag2_nonneg (z : C) : 0 <= Spec.mag2 z.
Proof. rewrite mag2_sum. nra. Qed.

Lemma Cabs_sq (z : C) : Cabs z ^ 2 = Spec.mag2 z.
Proof.
  rewrite mag2_sum. unfold Cabs. cbn [pow]. rewrite Rmult_1_r.
  apply sqrt_sqrt. nra.
Qed.

Ltac unfold_K :=
  unfold Spec.K_1ss, Spec.K_1cc, Spec.K_1c, Spec.K_2ss, Spec.K_2cc, Spec.K_2c,
    Spec.K_3sc, Spec.K_3s, Spec.K_4sc, Spec.K_4s.

Lemma angular_coefficients_closed
    (ta : gmap (string * string) C) (t : Transversity) (alpha : R) :
  ta_entries ta t -> angular_coefficients ta alpha = Ok (Spec.angular t alpha).
Proof.
  intros (E1 & E2 & E3 & E4 & E5 & E6 & E7 & E8).
  assert (Hs : sqrt 2 <> 0) by (apply sqrt_pos_neq; lra).
  unfold angular_coefficients.
  rewrite !(getitem_Some ta _ _ E1), !(getitem_Some ta _ _ E2),
    !(getitem_Some ta _ _ E3), !(getitem_Some ta _ _ E4),
    !(getitem_Some ta _ _ E5), !(getitem_Some ta _ _ E6),
    !(getitem_Some ta _ _ E7), !(getitem_Some ta _ _ E8).
  repeat (cbn [mbind result_bind];
          first [ rewrite py_sqrt_nonneg by lra
                | rewrite py_div_nonzero by exact Hs ]).
  cbn [mbind result_bind].
  f_equal. unfold Spec.angular. rewrite !Cabs_sq.
  repeat (apply insert_ext;
          [unfold_K; unfold_C; first [reflexivity | ring | field; exact Hs] |]).
  reflexivity.
Qed.

Lemma angular_size (t : Transversity) (alpha : R) :
  size (Spec.angular t alpha) = 10%nat.
Proof.
  unfold Spec.angular.
  rewrite !map_size_insert_None by (simplify_map_eq; reflexivity).
  rewrite map_size_empty. reflexivity.
Qed.

(** C2 (amended). For every transversity amplitude set with the eight
    entries and every real [alpha], [angular_coefficients] returns exactly
    the dictionary of the specification's bilinear formulas, with the stated
    signs, chirality pairings and Re/Im selections; that dictionary has ten
    keys: 1ss, 1cc, 1c, 2ss, 2cc, 2c, 3sc, 3s, 4sc, 4s. *)
Theorem angular_coefficients_spec
    (ta : gmap (string * string) C) (t : Transversity) (alpha : R) :
  ta_entries ta t ->
  angular_coefficients ta alpha = Ok (Spec.angular t alpha) /\
  size (Spec.angular t alpha) = 10%nat.
Proof.
  intros Ht. split; [apply angular_coefficients_closed; exact Ht | apply angular_size].
Qed.

Lemma angular_coefficients_spec_witness :
  angular_coefficients ta_zero 0 = Ok (Spec.angular t_zero 0) /\
  size (Spec.angular t_zero 0) = 10%nat.
Proof.
  apply (angular_coefficients_spec ta_zero t_zero 0).
  unfold ta_entries, ta_zero. repeat split; reflexivity.
Defined.

(** C2 as stated fails: the returned dictionary has ten entries, not nine.
    At the all-zero amplitude set and [alpha = 0] the result has size 10. *)
Lemma angular_coefficients_not_nine :
  exists K : gmap string R,
    angular_coefficients ta_zero 0 = Ok K /\ size K = 10%nat /\ size K <> 9%nat.
Proof.
  exists (Spec.angular t_zero 0).
  split.
  - apply angular_coefficients_closed.
    unfold ta_entries, ta_zero. repeat split; reflexivity.
  - rewrite angular_size. split; [reflexivity | discriminate].
Qed.

(** C8. With [alpha = 0] the seven coefficients 2ss, 2cc, 2c, 3sc, 3s, 4sc
    and 4s are exactly 0, while 1ss, 1cc and 1c are the same for every
    [alpha]. *)
Theorem angular_coefficients_alpha_zero
    (ta : gmap (string * string) C) (t : Transversity) :
  ta_entries ta t ->
  exists K0 : gmap string R,
    angular_coefficients ta 0 = Ok K0 /\
    K0 !! "2ss" = Some 0 /\ K0 !! "2cc" = Some 0 /\ K0 !! "2c" = Some 0 /\
    K0 !! "3sc" = Some 0 /\ K0 !! "3s" = Some 0 /\
    K0 !! "4sc" = Some 0 /\ K0 !! "4s" = Some 0 /\
    forall alpha : R, exists K : gmap string R,
      angular_coefficients ta alpha = Ok K /\
      K !! "1ss" = K0 !! "1ss" /\ K !! "1cc" = K0 !! "1cc" /\
      K !! "1c" = K0 !! "1c" /\
      is_Some (K !! "1ss") /\ is_Some (K !! "1cc") /\ is_Some (K !! "1c").
Proof.
  intros Ht. exists (Spec.angular t 0).
  split; [apply angular_coefficients_closed; exact Ht |].
  unfold Spec.angular.
  repeat (split; [simplify_map_eq; f_equal; unfold_K; lra |]).
  intros alpha. exists (Spec.angular t alpha).
  split; [apply angular_coefficients_closed; exact Ht |].
  unfold Spec.angular. repeat split; simplify_map_eq; eauto.
Qed.

Lemma angular_coefficients_alpha_zero_witness :
  exists K0 : gmap string R,
    angular_coefficients ta_zero 0 = Ok K0 /\
    K0 !! "2ss" = Some 0 /\ K0 !! "2cc" = Some 0 /\ K0 !! "2c" = Some 0 /\
    K0 !! "3sc" = Some 0 /\ K0 !! "3s" = Some 0 /\
    K0 !! "4sc" = Some 0 /\ K0 !! "4s" = Some 0 /\
    forall alpha : R, exists K : gmap string R,
      angular_coefficients ta_zero alpha = Ok K /\
      K !! "1ss" = K0 !! "1ss" /\ K !! "1cc" = K0 !! "1cc" /\
      K !! "1c" = K0 !! "1c" /\
      is_Some (K !! "1ss") /\ is_Some (K !! "1cc") /\ is_Some (K !! "1c").
Proof.
  apply (angular_coefficients_alpha_zero ta_zero t_zero).
  unfold ta_entries, ta_zero. repeat split; reflexivity.
Defined.

(** C9. For every transversity amplitude set and every [alpha], the
    coefficients 1ss and 1cc are non-negative, and so is the total rate
    functional [dGdq2 K = 2 K[1ss] + K[1cc]]. *)
Theorem angular_coefficients_rate_nonneg
    (ta : gmap (string * string) C) (t : Transversity) (alpha : R) :
  ta_entries ta t ->
  exists (K : gmap string R) (k1ss k1cc : R),
    angular_coefficients ta alpha = Ok K /\
    K !! "1ss" = Some k1ss /\ 0 <= k1ss /\
    K !! "1cc" = Some k1cc /\ 0 <= k1cc /\
    dGdq2 K = Ok (2 * k1ss + k1cc) /\ 0 <= 2 * k1ss + k1cc.
Proof.
  intros Ht.
  exists (Spec.angular t alpha), (Spec.K_1ss t), (Spec.K_1cc t).
  assert (H1 : 0 <= Spec.K_1ss t).
  { unfold Spec.K_1ss.
    pose proof (mag2_nonneg (perp1R t)). pose proof (mag2_nonneg (perp1L t)).
    pose proof (mag2_nonneg (para1R t)). pose proof (mag2_nonneg (para1L t)).
    pose proof (mag2_nonneg (perp0R t)). pose proof (mag2_nonneg (perp0L t)).
    pose proof (mag2_nonneg (para0R t)). pose proof (mag2_nonneg (para0L t)).
    lra. }
  assert (H2 : 0 <= Spec.K_1cc t).
  { unfold Spec.K_1cc.
    pose proof (mag2_nonneg (perp1R t)). pose proof (mag2_nonneg (perp1L t)).
    pose proof (mag2_nonneg (para1R t)). pose proof (mag2_nonneg (para1L t)).
    lra. }
  assert (L1 : Spec.angular t alpha !! "1ss" = Some (Spec.K_1ss t))
    by (unfold Spec.angular; simplify_map_eq; reflexivity).
  assert (L2 : Spec.angular t alpha !! "1cc" = Some (Spec.K_1cc t))
    by (unfold Spec.angular; simplify_map_eq; reflexivity).
  split; [apply angular_coefficients_closed; exact Ht |].
  split; [exact L1 |]. split; [exact H1 |].
  split; [exact L2 |]. split; [exact H2 |].
  split; [| lra].
  unfold dGdq2. rewrite (getitem_Some _ _ _ L1), (getitem_Some _ _ _ L2).
  reflexivity.
Qed.

Lemma angular_coefficients_rate_nonneg_witness :
  exists (K : gmap string R) (k1ss k1cc : R),
    angular_coefficients ta_zero 1 = Ok K /\
    K !! "1ss" = Some k1ss /\ 0 <= k1ss /\
    K !! "1cc" = Some k1cc /\ 0 <= k1cc /\
    dGdq2 K = Ok (2 * k1ss + k1cc) /\ 0 <= 2 * k1ss + k1cc.
Proof.
  apply (angular_coefficients_rate_nonneg ta_zero t_zero 1).
  unfold ta_entries, ta_zero. repeat split; reflexivity.
Defined.

(** ** The orchestration layer *)

(** Inverts a successful chain of binds in hypothesis [H]. *)
Ltac inv_binds H :=
  unfold mbind, result_bind in H;
  repeat match type of H with
         | context [match ?m with Ok _ => _ | Raise _ => _ end] =>
             destruct m eqn:?; [| discriminate H]; cbv beta iota in H
         end.

Lemma transverity_amps_entries
    (ha : gmap string R) (q2 mLb mL mqh mql : R) (wc : gmap string C) (N : C)
    (A : gmap (string * string) C) :
  transverity_amps ha q2 mLb mL mqh mql wc N = Ok A ->
  exists t : Transversity, ta_entries A t.
Proof.
  intros HA. unfold transverity_amps in HA. inv_binds HA.
  injection HA as <-.
  eexists (mkTA _ _ _ _ _ _ _ _). unfold ta_entries. cbn [perp1R perp1L para1R
    para1L perp0R perp0L para0R para0L].
  rewrite !fmap_insert, fmap_empty.
  repeat split; simplify_map_eq; reflexivity.
Qed.

Section OrchestratorProperties.

Context `{E : Collaborators}.

Lemma get_transverity_amps_entries
    (q2 : R) (wc_obj : WilsonCoefficients) (par : gmap pkey R) (lep : string)
    (ta : gmap (string * string) C) :
  get_transverity_amps q2 wc_obj par lep false = Ok ta ->
  exists t : Transversity, ta_entries ta t.
Proof.
  intros Hta. unfold get_transverity_amps in Hta.
  inv_binds Hta. injection Hta as <-.
  eapply transverity_amps_entries; eassumption.
Qed.

(** C1. Outside the kinematic window, [q2 < 4 ml^2] or
    [q2 > (mLb - mL)^2], [get_obs] returns exactly 0 and raises nothing;
    inside the window, once the transversity stage has produced [ta] and the
    table holds the decay parameter [alpha], it returns the requested
    functional applied to the angular coefficients of [ta] and [alpha]. *)
Theorem get_obs_window
    (function : gmap string R -> result R) (q2 : R) (wc_obj : WilsonCoefficients)
    (par : gmap pkey R) (lep : string) (ml mLb mL : R) :
  par !! PStr ("m_" +:+ lep) = Some ml ->
  par !! PStr "m_Lambdab" = Some mLb ->
  par !! PStr "m_Lambda" = Some mL ->
  (q2 < 4 * ml ^ 2 \/ q2 > (mLb - mL) ^ 2 ->
   get_obs function q2 wc_obj par lep = Ok 0) /\
  (4 * ml ^ 2 <= q2 <= (mLb - mL) ^ 2 ->
   forall (ta : gmap (string * string) C) (alpha : R),
     get_transverity_amps q2 wc_obj par lep false = Ok ta ->
     par !! PStr "Lambda->ppi alpha_-" = Some alpha ->
     exists K : gmap string R,
       angular_coefficients ta alpha = Ok K /\
       get_obs function q2 wc_obj par lep = function K).
Proof.
  intros Hml HmLb HmL. unfold get_obs.
  rewrite (getitem_Some par _ _ Hml), (getitem_Some par _ _ HmLb),
    (getitem_Some par _ _ HmL).
  cbn [mbind result_bind]. split.
  - intros [Hlo | Hhi].
    + destruct (Rlt_dec q2 (4 * ml ^ 2)); [reflexivity | contradiction].
    + destruct (Rlt_dec q2 (4 * ml ^ 2)); [reflexivity |].
      destruct (Rgt_dec q2 ((mLb - mL) ^ 2)); [reflexivity | contradiction].
  - intros [Hlo Hhi] ta alpha Hta Halpha.
    destruct (get_transverity_amps_entries _ _ _ _ _ Hta) as [t Ht].
    exists (Spec.angular t alpha).
    split; [apply angular_coefficients_closed; exact Ht |].
    destruct (Rlt_dec q2 (4 * ml ^ 2)); [lra |].
    destruct (Rgt_dec q2 ((mLb - mL) ^ 2)); [lra |].
    rewrite Hta, (getitem_Some par _ _ Halpha). cbn [mbind result_bind].
    rewrite (angular_coefficients_closed _ _ _ Ht). reflexivity.
Qed.

(** C6. Inside the window [dbrdq2] returns the lifetime [tau_Lambdab] times
    [2 K[1ss] + K[1cc]]; for [q2min < q2max], [dbrdq2_int] returns what the
    integrator gives for the density over [q2min, q2max], divided by the bin
    width [q2max - q2min]. *)
Theorem dbrdq2_density_and_bin_average
    (wc_obj : WilsonCoefficients) (par : gmap pkey R) (lep : string) :
  (forall (q2 tauLb ml mLb mL alpha : R) (ta : gmap (string * string) C),
     par !! PStr "tau_Lambdab" = Some tauLb ->
     par !! PStr ("m_" +:+ lep) = Some ml ->
     par !! PStr "m_Lambdab" = Some mLb ->
     par !! PStr "m_Lambda" = Some mL ->
     4 * ml ^ 2 <= q2 <= (mLb - mL) ^ 2 ->
     get_transverity_amps q2 wc_obj par lep false = Ok ta ->
     par !! PStr "Lambda->ppi alpha_-" = Some alpha ->
     exists (K : gmap string R) (k1ss k1cc : R),
       angular_coefficients ta alpha = Ok K /\
       K !! "1ss" = Some k1ss /\ K !! "1cc" = Some k1cc /\
       dbrdq2 q2 wc_obj par lep = Ok (tauLb * (2 * k1ss + k1cc))) /\
  (forall q2min q2max i : R,
     q2min < q2max ->
     nintegrate (fun q2 => dbrdq2 q2 wc_obj par lep) q2min q2max = Ok i ->
     dbrdq2_int q2min q2max wc_obj par lep = Ok (i / (q2max - q2min))).
Proof.
  split.
  - intros q2 tauLb ml mLb mL alpha ta Htau Hml HmLb HmL [Hlo Hhi] Hta Halpha.
    destruct (get_transverity_amps_entries _ _ _ _ _ Hta) as [t Ht].
    assert (L1 : Spec.angular t alpha !! "1ss" = Some (Spec.K_1ss t))
      by (unfold Spec.angular; simplify_map_eq; reflexivity).
    assert (L2 : Spec.angular t alpha !! "1cc" = Some (Spec.K_1cc t))
      by (unfold Spec.angular; simplify_map_eq; reflexivity).
    exists (Spec.angular t alpha), (Spec.K_1ss t), (Spec.K_1cc t).
    split; [apply angular_coefficients_closed; exact Ht |].
    split; [exact L1 |]. split; [exact L2 |].
    unfold dbrdq2, get_obs.
    rewrite (getitem_Some par _ _ Htau), (getitem_Some par _ _ Hml),
      (getitem_Some par _ _ HmLb), (getitem_Some par _ _ HmL).
    cbn [mbind result_bind].
    destruct (Rlt_dec q2 (4 * ml ^ 2)); [lra |].
    destruct (Rgt_dec q2 ((mLb - mL) ^ 2)); [lra |].
    rewrite Hta, (getitem_Some par _ _ Halpha). cbn [mbind result_bind].
    rewrite (angular_coefficients_closed _ _ _ Ht). cbn [mbind result_bind].
    unfold dGdq2. rewrite (getitem_Some _ _ _ L1), (getitem_Some _ _ _ L2).
    reflexivity.
  - intros q2min q2max i Hlt Hi. unfold dbrdq2_int.
    rewrite Hi. cbn [mbind result_bind].
    apply py_div_nonzero. lra.
Qed.

(** C7 (the code departs from the claim). With the CP-conjugation flag set
    the call stops at source line 106: the name [conjugate_par] is not bound
    in the module, so [NameError] is raised before the table is transformed
    or any stage runs, whatever the table is. *)
Theorem get_transverity_amps_cp_conjugate_raises
    (q2 : R) (wc_obj : WilsonCoefficients) (par_dict : gmap pkey R) (lep : string) :
  get_transverity_amps q2 wc_obj par_dict lep true = Raise NameError.
Proof. reflexivity. Qed.

End OrchestratorProperties.

(** The sample pipeline succeeds at [q2 = 1]. *)
Lemma toy_transverity_ok :
  exists ta : gmap (string * string) C,
    @get_transverity_amps toy 1 tt par_sample "mu" false = Ok ta.
Proof.
  unfold get_transverity_amps.
  cbn [toy config_renormalization_scale get_mb aux_prediction wctot_dict
       get_wceff xi get_alpha lambda_K mbind result_bind].
  assert (Hd : 0 < 3 * 2 * 2 ^ 3 * PI ^ 5).
  { pose proof PI_RGT_0 as Hpi.
    assert (0 < PI ^ 5) by (apply pow_lt; exact Hpi). nra. }
  repeat (cbn [mbind result_bind];
          first [ rewrite (helicity_amps_eq 1 2 1 ff_ones ones)
                    by first [lra | unfold ff_entries, ff_ones; repeat split; reflexivity]
                | rewrite py_sqrt_nonneg by lra
                | rewrite Cdiv_real by first [lra | apply sqrt_pos_neq; exact Hd]
                | rewrite (transverity_amps_closed _ (helicity_plus 1 2 1 ones) _ _ _ _ _ _ wb_ones)
                    by first [ lra | apply helicity_dict_plus
                             | unfold wc_entries, wc_ones; repeat split; reflexivity ]
                | erewrite getitem_Some by (simplify_map_eq; reflexivity) ]).
  cbn [mbind result_bind].
  eexists. reflexivity.
Qed.

Lemma get_obs_window_witness :
  @get_obs toy dGdq2 2 tt par_sample "mu" = Ok 0 /\
  exists (ta : gmap (string * string) C) (K : gmap string R),
    @get_transverity_amps toy 1 tt par_sample "mu" false = Ok ta /\
    angular_coefficients ta (1 / 2) = Ok K /\
    @get_obs toy dGdq2 1 tt par_sample "mu" = dGdq2 K.
Proof.
  split.
  - apply (@get_obs_window toy dGdq2 2 tt par_sample "mu" (1 / 4) 2 1);
      [reflexivity | reflexivity | reflexivity |].
    right. lra.
  - destruct toy_transverity_ok as [ta Hta]. exists ta.
    destruct (proj2 (@get_obs_window toy dGdq2 1 tt par_sample "mu" (1 / 4) 2 1
                       eq_refl eq_refl eq_refl)
                ltac:(lra) ta (1 / 2) Hta eq_refl) as [K [HK Hobs]].
    exists K. split; [exact Hta |]. split; [exact HK | exact Hobs].
Defined.

Lemma dbrdq2_density_and_bin_average_witness :
  (exists (ta : gmap (string * string) C) (K : gmap string R) (k1ss k1cc : R),
     @get_transverity_amps toy 1 tt par_sample "mu" false = Ok ta /\
     angular_coefficients ta (1 / 2) = Ok K /\
     K !! "1ss" = Some k1ss /\ K !! "1cc" = Some k1cc /\
     @dbrdq2 toy 1 tt par_sample "mu" = Ok (3 * (2 * k1ss + k1cc))) /\
  @dbrdq2_int toy 2 4 tt par_sample "mu" = Ok ((4 - 2) * (3 * 0) / (4 - 2)).
Proof.
  pose proof (@dbrdq2_density_and_bin_average toy tt par_sample "mu") as [Hd Hi].
  split.
  - destruct toy_transverity_ok as [ta Hta]. exists ta.
    destruct (Hd 1 3 (1 / 4) 2 1 (1 / 2) ta eq_refl eq_refl eq_refl eq_refl
                ltac:(lra) Hta eq_refl) as (K & k1ss & k1cc & HK & H1 & H2 & Hv).
    exists K, k1ss, k1cc. repeat split; assumption.
  - apply (Hi 2 4 ((4 - 2) * (3 * 0))); [lra |].
    cbn [nintegrate toy]. unfold dbrdq2, get_obs.
    repeat (cbn [mbind result_bind];
            erewrite getitem_Some by (simplify_map_eq; reflexivity)).
    cbn [mbind result_bind].
    destruct (Rlt_dec ((2 + 4) / 2) (4 * (1 / 4) ^ 2)); [lra |].
    destruct (Rgt_dec ((2 + 4) / 2) ((2 - 1) ^ 2)); [reflexivity | lra].
Defined.

(** * Further properties of the code *)

(** ** Inversion of the primitive operations *)

Lemma getitem_Ok_inv {K V : Type} `{Countable K} (d : gmap K V) (k : K) (v : V) :
  getitem d k = Ok v -> d !! k = Some v.
Proof. unfold getitem. destruct (d !! k); [intros [= ->]; reflexivity | discriminate]. Qed.

Lemma getitem_None {K V : Type} `{Countable K} (d : gmap K V) (k : K) :
  d !! k = None -> getitem d k = Raise KeyError.
Proof. intros Hk. unfold getitem. rewrite Hk. reflexivity. Qed.

Lemma py_sqrt_Ok_inv (x r : R) : py_sqrt x = Ok r -> 0 <= x /\ r = sqrt x.
Proof.
  unfold py_sqrt. destruct (Rlt_dec x 0); [discriminate |].
  intros [= <-]. split; [lra | reflexivity].
Qed.

Lemma py_sqrt_neg (x : R) : x < 0 -> py_sqrt x = Raise ValueError.
Proof. intros Hx. unfold py_sqrt. destruct (Rlt_dec x 0); [reflexivity | lra]. Qed.

Lemma py_div_Ok_inv (a b r : R) : py_div a b = Ok r -> b <> 0 /\ r = a / b.
Proof.
  unfold py_div. destruct (Req_dec_T b 0); [discriminate |].
  intros [= <-]. split; [assumption | reflexivity].
Qed.

Lemma Cdiv_Ok_inv (z : C) (q : R) (r : C) : Cdiv z (RtoC q) = Ok r -> q <> 0.
Proof.
  unfold Cdiv, RtoC; cbn [real imag].
  destruct (Req_dec_T (q * q + 0 * 0) 0) as [Hd | Hd]; [discriminate |].
  intros _ ->. apply Hd. ring.
Qed.

(** Inverts, in hypothesis [H], the primitive steps of a computation that
    returned: every lookup, square root and division it ran succeeded. *)
Ltac inv_steps H :=
  unfold mbind, result_bind in H;
  repeat match type of H with
         | context [getitem ?d ?k] =>
             destruct (getitem d k) eqn:?; cbv beta iota in H; [| discriminate H]
         | context [py_sqrt ?x] =>
             destruct (py_sqrt x) eqn:?; cbv beta iota in H; [| discriminate H]
         | context [py_div ?a ?b] =>
             destruct (py_div a b) eqn:?; cbv beta iota in H; [| discriminate H]
         | context [Cdiv ?a ?b] =>
             destruct (Cdiv a b) eqn:?; cbv beta iota in H; [| discriminate H]
         end.

(** ** Helicity amplitudes: when the call returns and what it raises *)

Lemma helicity_amps_eq_gen (q2 mLb mL : R) (ff : gmap string R) (f : FormFactors) :
  0 < q2 -> q2 <= (mLb - mL) ^ 2 -> q2 <= (mLb + mL) ^ 2 -> ff_entries ff f ->
  helicity_amps q2 mLb mL ff = Ok (helicity_dict (helicity_plus q2 mLb mL f)).
Proof.
  intros Hq Hsm Hsp (H1 & H2 & H3 & H4 & H5 & H6 & H7 & H8).
  unfold helicity_amps.
  rewrite !(getitem_Some ff _ _ H1), !(getitem_Some ff _ _ H2),
    !(getitem_Some ff _ _ H3), !(getitem_Some ff _ _ H4),
    !(getitem_Some ff _ _ H5), !(getitem_Some ff _ _ H6),
    !(getitem_Some ff _ _ H7), !(getitem_Some ff _ _ H8).
  run_with lra.
  reflexivity.
Qed.

Lemma helicity_amps_Ok_inv (q2 mLb mL : R) (ff H : gmap string R) :
  helicity_amps q2 mLb mL ff = Ok H ->
  exists f : FormFactors,
    ff_entries ff f /\ 0 < q2 /\ q2 <= (mLb - mL) ^ 2 /\ q2 <= (mLb + mL) ^ 2.
Proof.
  intros HH. unfold helicity_amps in HH.
  unfold mbind, result_bind in HH.
  destruct (getitem ff "fV0") as [f1|] eqn:G1; [| discriminate HH].
  destruct (py_sqrt q2) as [s|] eqn:S1; [| discriminate HH].
  destruct (py_div (f1 * (mLb + mL)) s) as [d1|] eqn:D1; [| discriminate HH].
  destruct (py_sqrt ((mLb - mL) ^ 2 - q2)) as [tm|] eqn:S2; [| discriminate HH].
  destruct (getitem ff "fVperp") as [f2|] eqn:G2; [| discriminate HH].
  destruct (py_sqrt (2 * ((mLb - mL) ^ 2 - q2))) as [tm2|] eqn:S3; [| discriminate HH].
  destruct (getitem ff "fA0") as [f3|] eqn:G3; [| discriminate HH].
  destruct (py_div (f3 * (mLb - mL)) s) as [d3|] eqn:D3; [| discriminate HH].
  destruct (py_sqrt ((mLb + mL) ^ 2 - q2)) as [tp|] eqn:S4; [| discriminate HH].
  destruct (getitem ff "fAperp") as [f4|] eqn:G4; [| discriminate HH].
  destruct (py_sqrt (2 * ((mLb + mL) ^ 2 - q2))) as [tp2|] eqn:S5; [| discriminate HH].
  destruct (getitem ff "fT0") as [f5|] eqn:G5; [| discriminate HH].
  destruct (getitem ff "fTperp") as [f6|] eqn:G6; [| discriminate HH].
  destruct (getitem ff "fT50") as [f7|] eqn:G7; [| discriminate HH].
  destruct (getitem ff "fT5perp") as [f8|] eqn:G8; [| discriminate HH].
  clear HH.
  apply py_sqrt_Ok_inv in S1 as [Hq0 ->], S2 as [Hsm _], S4 as [Hsp _].
  apply py_div_Ok_inv in D1 as [Hs _].
  exists (mkFF f1 f2 f3 f4 f5 f6 f7 f8).
  split.
  { unfold ff_entries; cbn [fV0 fVperp fA0 fAperp fT0 fTperp fT50 fT5perp].
    repeat split; apply getitem_Ok_inv; assumption. }
  split; [| split; lra].
  destruct (Rle_lt_or_eq_dec 0 q2 Hq0) as [Hlt | Heq]; [exact Hlt |].
  exfalso. apply Hs. rewrite <- Heq. apply sqrt_0.
Qed.

(** X1. For [q2] other than zero, [helicity_amps] returns a dictionary
    exactly when the form-factor set holds the eight keys, [q2] is positive
    and both kinematic invariants [sm = (mLb-mL)^2 - q2] and
    [sp = (mLb+mL)^2 - q2] are non-negative; otherwise it raises. *)
Theorem helicity_amps_returns_iff (q2 mLb mL : R) (ff : gmap string R) :
  q2 <> 0 ->
  ((exists H : gmap string R, helicity_amps q2 mLb mL ff = Ok H) <->
   ((exists f : FormFactors, ff_entries ff f) /\
    0 < q2 /\ q2 <= (mLb - mL) ^ 2 /\ q2 <= (mLb + mL) ^ 2)).
Proof.
  intros _. split.
  - intros [H HH]. destruct (helicity_amps_Ok_inv _ _ _ _ _ HH) as (f & Hf & Hq & Hm & Hp).
    split; [exists f; exact Hf |]. repeat split; assumption.
  - intros ([f Hf] & Hq & Hm & Hp).
    exists (helicity_dict (helicity_plus q2 mLb mL f)).
    apply helicity_amps_eq_gen; assumption.
Qed.

Lemma helicity_amps_returns_iff_witness :
  (exists H : gmap string R, helicity_amps 1 2 1 ff_ones = Ok H) <->
  ((exists f : FormFactors, ff_entries ff_ones f) /\
   0 < 1 /\ 1 <= (2 - 1) ^ 2 /\ 1 <= (2 + 1) ^ 2).
Proof. apply (helicity_amps_returns_iff 1 2 1 ff_ones). lra. Defined.

(** X2. A caller that skips the window test gets an exception, not a
    number: with the key ['fV0'] present, [helicity_amps] raises
    [ValueError] for every negative [q2] and for every positive [q2] above
    [(mLb - mL)^2]; without that key it raises [KeyError] whatever [q2]
    is. *)
Theorem helicity_amps_raises (q2 mLb mL : R) (ff : gmap string R) :
  (is_Some (ff !! "fV0") -> q2 < 0 -> helicity_amps q2 mLb mL ff = Raise ValueError) /\
  (is_Some (ff !! "fV0") -> 0 < q2 -> (mLb - mL) ^ 2 < q2 ->
   helicity_amps q2 mLb mL ff = Raise ValueError) /\
  (ff !! "fV0" = None -> helicity_amps q2 mLb mL ff = Raise KeyError).
Proof.
  split; [| split].
  - intros [x Hx] Hq. unfold helicity_amps.
    rewrite (getitem_Some ff _ _ Hx), (py_sqrt_neg q2 Hq). reflexivity.
  - intros [x Hx] Hq Hsm. unfold helicity_amps.
    rewrite (getitem_Some ff _ _ Hx), (py_sqrt_nonneg q2) by lra.
    cbn [mbind result_bind].
    rewrite py_div_nonzero by (apply sqrt_pos_neq; exact Hq).
    cbn [mbind result_bind].
    rewrite (py_sqrt_neg ((mLb - mL) ^ 2 - q2)) by lra. reflexivity.
  - intros Hx. unfold helicity_amps. rewrite (getitem_None ff _ Hx). reflexivity.
Qed.

Lemma helicity_amps_raises_witness :
  helicity_amps (-1) 2 1 ff_ones = Raise ValueError /\
  helicity_amps 2 2 1 ff_ones = Raise ValueError /\
  helicity_amps 1 2 1 ∅ = Raise KeyError.
Proof.
  split; [| split].
  - apply (proj1 (helicity_amps_raises (-1) 2 1 ff_ones)); [eexists; reflexivity | lra].
  - apply (proj1 (proj2 (helicity_amps_raises 2 2 1 ff_ones)));
      [eexists; reflexivity | lra | lra].
  - apply (proj2 (proj2 (helicity_amps_raises 1 2 1 ∅))). reflexivity.
Defined.

Lemma helicity_dict_size (h : HelicityPlus) : size (helicity_dict h) = 16%nat.
Proof.
  unfold helicity_dict.
  rewrite !map_size_insert_None by (simplify_map_eq; reflexivity).
  rewrite map_size_empty. reflexivity.
Qed.

(** X3. Whatever the inputs, a dictionary returned by [helicity_amps] has
    exactly sixteen keys, and its flipped-helicity entries obey the sign
    rules: V and T entries are copied, A and T5 entries are negated. *)
Theorem helicity_amps_output_shape (q2 mLb mL : R) (ff H : gmap string R) :
  helicity_amps q2 mLb mL ff = Ok H ->
  size H = 16%nat /\
  exists h : HelicityPlus,
    ha_entries H h /\
    H !! "0V--" = Some (h_0Vpp h) /\ H !! "+V+-" = Some (h_pVmp h) /\
    H !! "0T--" = Some (h_0Tpp h) /\ H !! "+T+-" = Some (h_pTmp h) /\
    H !! "0A--" = Some (- h_0App h) /\ H !! "+A+-" = Some (- h_pAmp h) /\
    H !! "0T5--" = Some (- h_0T5pp h) /\ H !! "+T5+-" = Some (- h_pT5mp h).
Proof.
  intros HH.
  destruct (helicity_amps_Ok_inv _ _ _ _ _ HH) as (f & Hf & Hq & Hm & Hp).
  rewrite (helicity_amps_eq_gen _ _ _ _ f Hq Hm Hp Hf) in HH.
  injection HH as <-.
  split; [apply helicity_dict_size |].
  exists (helicity_plus q2 mLb mL f).
  split; [apply helicity_dict_plus |].
  unfold helicity_dict. repeat split; simplify_map_eq; reflexivity.
Qed.

Lemma helicity_amps_output_shape_witness :
  size (helicity_dict (helicity_plus 1 2 1 ones)) = 16%nat /\
  exists h : HelicityPlus,
    ha_entries (helicity_dict (helicity_plus 1 2 1 ones)) h /\
    helicity_dict (helicity_plus 1 2 1 ones) !! "0V--" = Some (h_0Vpp h) /\
    helicity_dict (helicity_plus 1 2 1 ones) !! "+V+-" = Some (h_pVmp h) /\
    helicity_dict (helicity_plus 1 2 1 ones) !! "0T--" = Some (h_0Tpp h) /\
    helicity_dict (helicity_plus 1 2 1 ones) !! "+T+-" = Some (h_pTmp h) /\
    helicity_dict (helicity_plus 1 2 1 ones) !! "0A--" = Some (- h_0App h) /\
    helicity_dict (helicity_plus 1 2 1 ones) !! "+A+-" = Some (- h_pAmp h) /\
    helicity_dict (helicity_plus 1 2 1 ones) !! "0T5--" = Some (- h_0T5pp h) /\
    helicity_dict (helicity_plus 1 2 1 ones) !! "+T5+-" = Some (- h_pT5mp h).
Proof.
  apply (helicity_amps_output_shape 1 2 1 ff_ones).
  apply (helicity_amps_eq_gen 1 2 1 ff_ones ones); [lra | lra | lra |].
  unfold ff_entries, ff_ones. repeat split; reflexivity.
Defined.

(** X4. At the upper end of the window, [q2 = (mLb - mL)^2] with
    [0 <= mL < mLb], the call succeeds and the four vector and tensor
    amplitudes 0V++, +V-+, 0T++ and +T-+ are exactly zero. *)
Theorem helicity_amps_endpoint (mLb mL : R) (ff : gmap string R) (f : FormFactors) :
  0 <= mL -> mL < mLb -> ff_entries ff f ->
  exists H : gmap string R,
    helicity_amps ((mLb - mL) ^ 2) mLb mL ff = Ok H /\
    H !! "0V++" = Some 0 /\ H !! "+V-+" = Some 0 /\
    H !! "0T++" = Some 0 /\ H !! "+T-+" = Some 0.
Proof.
  intros HmL Hm Hff.
  exists (helicity_dict (helicity_plus ((mLb - mL) ^ 2) mLb mL f)).
  split; [apply helicity_amps_eq_gen; [nra | lra | nra | exact Hff] |].
  destruct (helicity_dict_plus (helicity_plus ((mLb - mL) ^ 2) mLb mL f))
    as (E1 & E2 & _ & _ & E5 & E6 & _ & _).
  rewrite E1, E2, E5, E6.
  cbn [helicity_plus h_0Vpp h_pVmp h_0Tpp h_pTmp].
  replace ((mLb - mL) ^ 2 - (mLb - mL) ^ 2) with 0 by ring.
  rewrite Rmult_0_r, sqrt_0.
  repeat split; f_equal; ring.
Qed.

Lemma helicity_amps_endpoint_witness :
  exists H : gmap string R,
    helicity_amps ((2 - 1) ^ 2) 2 1 ff_ones = Ok H /\
    H !! "0V++" = Some 0 /\ H !! "+V-+" = Some 0 /\
    H !! "0T++" = Some 0 /\ H !! "+T-+" = Some 0.
Proof.
  apply (helicity_amps_endpoint 2 1 ff_ones ones); [lra | lra |].
  unfold ff_entries, ff_ones. repeat split; reflexivity.
Defined.

(** ** Transversity amplitudes: when the call returns, scaling, chirality *)

Lemma transverity_amps_Ok_inv
    (ha : gmap string R) (q2 mLb mL mqh mql : R) (wc : gmap string C) (N : C)
    (A : gmap (string * string) C) :
  transverity_amps ha q2 mLb mL mqh mql wc N = Ok A ->
  exists (h : HelicityPlus) (w : WilsonBundle),
    ha_entries ha h /\ wc_entries wc w /\ q2 <> 0.
Proof.
  intros HA. unfold transverity_amps in HA. inv_steps HA. clear HA.
  eexists (mkHP _ _ _ _ _ _ _ _), (mkWB _ _ _ _ _ _).
  unfold ha_entries, wc_entries.
  cbn [h_0Vpp h_pVmp h_0App h_pAmp h_0Tpp h_pTmp h_0T5pp h_pT5mp
       c_v c_a c_vp c_ap c_7 c_7p].
  repeat split; try (apply getitem_Ok_inv; eassumption).
  eapply Cdiv_Ok_inv; eassumption.
Qed.

(** X5. For [q2] other than zero, [transverity_amps] returns exactly when
    the helicity set holds the eight keys it reads and the Wilson bundle
    holds its six keys. *)
Theorem transverity_amps_returns_iff
    (ha : gmap string R) (q2 mLb mL mqh mql : R) (wc : gmap string C) (N : C) :
  q2 <> 0 ->
  ((exists A : gmap (string * string) C,
      transverity_amps ha q2 mLb mL mqh mql wc N = Ok A) <->
   ((exists h : HelicityPlus, ha_entries ha h) /\
    (exists w : WilsonBundle, wc_entries wc w))).
Proof.
  intros Hq. split.
  - intros [A HA].
    destruct (transverity_amps_Ok_inv _ _ _ _ _ _ _ _ _ HA) as (h & w & Hh & Hw & _).
    split; [exists h; exact Hh | exists w; exact Hw].
  - intros ([h Hh] & [w Hw]).
    exists (Spec.transversity N q2 mqh w h).
    apply transverity_amps_closed; assumption.
Qed.

Lemma transverity_amps_returns_iff_witness :
  (exists A : gmap (string * string) C,
     transverity_amps (helicity_dict hp_ones) 1 2 1 4 0 wc_ones (RtoC 1) = Ok A) <->
  ((exists h : HelicityPlus, ha_entries (helicity_dict hp_ones) h) /\
   (exists w : WilsonBundle, wc_entries wc_ones w)).
Proof.
  apply (transverity_amps_returns_iff (helicity_dict hp_ones) 1 2 1 4 0 wc_ones (RtoC 1)).
  lra.
Defined.

Lemma transversity_scale (M N : C) (q2 mqh : R) (w : WilsonBundle) (h : HelicityPlus) :
  Spec.transversity (M * N)%C q2 mqh w h
  = (fun v => M * v)%C <$> Spec.transversity N q2 mqh w h.
Proof.
  unfold Spec.transversity. rewrite !fmap_insert, fmap_empty.
  repeat (apply insert_ext; [unfold_C; apply C_ext; cbn [real imag]; ring |]).
  reflexivity.
Qed.

(** X6. The result is homogeneous in the prefactor: if the call with
    prefactor [N] returns [A], the call with prefactor [M * N] returns [A]
    with every entry multiplied by [M]. *)
Theorem transverity_amps_prefactor_scaling
    (ha : gmap string R) (q2 mLb mL mqh mql : R) (wc : gmap string C) (M N : C)
    (A : gmap (string * string) C) :
  transverity_amps ha q2 mLb mL mqh mql wc N = Ok A ->
  transverity_amps ha q2 mLb mL mqh mql wc (M * N)%C
  = Ok ((fun v => M * v)%C <$> A).
Proof.
  intros HA.
  destruct (transverity_amps_Ok_inv _ _ _ _ _ _ _ _ _ HA) as (h & w & Hh & Hw & Hq).
  rewrite (transverity_amps_closed _ h _ _ _ _ _ _ w _ Hq Hh Hw) in HA.
  injection HA as <-.
  rewrite (transverity_amps_closed _ h _ _ _ _ _ _ w _ Hq Hh Hw).
  f_equal. apply transversity_scale.
Qed.

Lemma wc_ones_entries : wc_entries wc_ones wb_ones.
Proof. unfold wc_entries, wc_ones. repeat split; reflexivity. Qed.

Lemma transverity_amps_prefactor_scaling_witness :
  transverity_amps (helicity_dict hp_ones) 1 2 1 4 0 wc_ones (RtoC 2 * RtoC 1)%C
  = Ok ((fun v => RtoC 2 * v)%C <$> Spec.transversity (RtoC 1) 1 4 wb_ones hp_ones).
Proof.
  apply (transverity_amps_prefactor_scaling (helicity_dict hp_ones) 1 2 1 4 0
           wc_ones (RtoC 2) (RtoC 1)).
  apply (transverity_amps_closed _ hp_ones _ _ _ _ _ _ wb_ones);
    [lra | apply helicity_dict_plus | apply wc_ones_entries].
Defined.

(** X7. Without axial couplings, [wc['a'] = wc['ap'] = 0], the left- and
    right-handed amplitudes coincide in each of the four channels. *)
Theorem transverity_amps_no_axial
    (ha : gmap string R) (q2 mLb mL mqh mql : R) (wc : gmap string C) (N : C)
    (A : gmap (string * string) C) :
  wc !! "a" = Some (RtoC 0) -> wc !! "ap" = Some (RtoC 0) ->
  transverity_amps ha q2 mLb mL mqh mql wc N = Ok A ->
  (exists x, A !! ("perp1", "L") = Some x /\ A !! ("perp1", "R") = Some x) /\
  (exists x, A !! ("para1", "L") = Some x /\ A !! ("para1", "R") = Some x) /\
  (exists x, A !! ("perp0", "L") = Some x /\ A !! ("perp0", "R") = Some x) /\
  (exists x, A !! ("para0", "L") = Some x /\ A !! ("para0", "R") = Some x).
Proof.
  intros Ha Hap HA.
  destruct (transverity_amps_Ok_inv _ _ _ _ _ _ _ _ _ HA) as (h & w & Hh & Hw & Hq).
  rewrite (transverity_amps_closed _ h _ _ _ _ _ _ w _ Hq Hh Hw) in HA.
  injection HA as <-.
  destruct Hw as (_ & W2 & _ & W4 & _ & _).
  rewrite Ha in W2. rewrite Hap in W4.
  injection W2 as W2. injection W4 as W4.
  assert (Hpl : Spec.C_L_pl w = Spec.C_R_pl w).
  { unfold Spec.C_L_pl, Spec.C_R_pl. rewrite <- W2, <- W4.
    apply C_ext; unfold Cadd, Csub, RtoC; cbn [real imag]; ring. }
  assert (Hmi : Spec.C_L_mi w = Spec.C_R_mi w).
  { unfold Spec.C_L_mi, Spec.C_R_mi. rewrite <- W2, <- W4.
    apply C_ext; unfold Cadd, Csub, RtoC; cbn [real imag]; ring. }
  unfold Spec.transversity. rewrite Hpl, Hmi.
  repeat split; eexists; split; simplify_map_eq; reflexivity.
Qed.

Lemma transverity_amps_no_axial_witness :
  (exists x, Spec.transversity (RtoC 1) 1 4 wb_vector hp_ones !! ("perp1", "L") = Some x /\
             Spec.transversity (RtoC 1) 1 4 wb_vector hp_ones !! ("perp1", "R") = Some x) /\
  (exists x, Spec.transversity (RtoC 1) 1 4 wb_vector hp_ones !! ("para1", "L") = Some x /\
             Spec.transversity (RtoC 1) 1 4 wb_vector hp_ones !! ("para1", "R") = Some x) /\
  (exists x, Spec.transversity (RtoC 1) 1 4 wb_vector hp_ones !! ("perp0", "L") = Some x /\
             Spec.transversity (RtoC 1) 1 4 wb_vector hp_ones !! ("perp0", "R") = Some x) /\
  (exists x, Spec.transversity (RtoC 1) 1 4 wb_vector hp_ones !! ("para0", "L") = Some x /\
             Spec.transversity (RtoC 1) 1 4 wb_vector hp_ones !! ("para0", "R") = Some x).
Proof.
  apply (transverity_amps_no_axial (helicity_dict hp_ones) 1 2 1 4 0 wc_vector (RtoC 1)).
  - reflexivity.
  - reflexivity.
  - apply (transverity_amps_closed _ hp_ones _ _ _ _ _ _ wb_vector);
      [lra | apply helicity_dict_plus |].
    unfold wc_entries, wc_vector. repeat split; reflexivity.
Defined.

(** X8. Composition at the upper end of the window: for
    [q2 = (mLb - mL)^2] with [0 <= mL < mLb], the helicity stage followed by
    the transversity stage succeeds and the four perp amplitudes are zero,
    whatever the Wilson coefficients and the prefactor are. *)
Theorem transverity_amps_endpoint
    (mLb mL mqh mql : R) (ff : gmap string R) (f : FormFactors)
    (wc : gmap string C) (w : WilsonBundle) (N : C) :
  0 <= mL -> mL < mLb -> ff_entries ff f -> wc_entries wc w ->
  exists (H : gmap string R) (A : gmap (string * string) C),
    helicity_amps ((mLb - mL) ^ 2) mLb mL ff = Ok H /\
    transverity_amps H ((mLb - mL) ^ 2) mLb mL mqh mql wc N = Ok A /\
    A !! ("perp1", "L") = Some (RtoC 0) /\ A !! ("perp1", "R") = Some (RtoC 0) /\
    A !! ("perp0", "L") = Some (RtoC 0) /\ A !! ("perp0", "R") = Some (RtoC 0).
Proof.
  intros HmL Hm Hff Hwc.
  set (q2 := (mLb - mL) ^ 2).
  assert (Hq : 0 < q2) by (unfold q2; nra).
  set (h := helicity_plus q2 mLb mL f).
  exists (helicity_dict h), (Spec.transversity N q2 mqh w h).
  split; [apply helicity_amps_eq_gen; [exact Hq | unfold q2; lra | unfold q2; nra | exact Hff] |].
  split; [apply transverity_amps_closed; [lra | apply helicity_dict_plus | exact Hwc] |].
  assert (Hz : sqrt ((mLb - mL) ^ 2 - q2) = 0)
    by (unfold q2; replace ((mLb - mL) ^ 2 - (mLb - mL) ^ 2) with 0 by ring; apply sqrt_0).
  assert (Hz2 : sqrt (2 * ((mLb - mL) ^ 2 - q2)) = 0)
    by (unfold q2; replace (2 * ((mLb - mL) ^ 2 - (mLb - mL) ^ 2)) with 0 by ring;
        apply sqrt_0).
  unfold Spec.transversity.
  repeat split; simplify_map_eq; f_equal; unfold h;
    cbn [helicity_plus h_0Vpp h_pVmp h_0Tpp h_pTmp]; rewrite ?Hz, ?Hz2;
    unfold_C; apply C_ext; cbn [real imag]; ring.
Qed.

Lemma transverity_amps_endpoint_witness :
  exists (H : gmap string R) (A : gmap (string * string) C),
    helicity_amps ((2 - 1) ^ 2) 2 1 ff_ones = Ok H /\
    transverity_amps H ((2 - 1) ^ 2) 2 1 4 0 wc_ones (RtoC 1) = Ok A /\
    A !! ("perp1", "L") = Some (RtoC 0) /\ A !! ("perp1", "R") = Some (RtoC 0) /\
    A !! ("perp0", "L") = Some (RtoC 0) /\ A !! ("perp0", "R") = Some (RtoC 0).
Proof.
  apply (transverity_amps_endpoint 2 1 4 0 ff_ones ones wc_ones wb_ones (RtoC 1));
    [lra | lra | |].
  - unfold ff_entries, ff_ones. repeat split; reflexivity.
  - unfold wc_entries, wc_ones. repeat split; reflexivity.
Defined.

(** ** Angular coefficients: errors, bounds, scaling *)

Lemma angular_coefficients_cases
    (ta : gmap (string * string) C) (alpha : R) :
  (exists t : Transversity,
     ta_entries ta t /\ angular_coefficients ta alpha = Ok (Spec.angular t alpha)) \/
  ((~ exists t : Transversity, ta_entries ta t) /\
   angular_coefficients ta alpha = Raise KeyError).
Proof.
  destruct (ta !! ("perp1", "R")) as [p1R|] eqn:E1;
    [| right; split;
       [intros [t Ht]; destruct Ht as (G & _); congruence
       | unfold angular_coefficients; rewrite (getitem_None ta _ E1); reflexivity]].
  destruct (ta !! ("perp1", "L")) as [p1L|] eqn:E2;
    [| right; split;
       [intros [t Ht]; destruct Ht as (_ & G & _); congruence
       | unfold angular_coefficients;
         rewrite (getitem_Some ta _ _ E1), (getitem_None ta _ E2); reflexivity]].
  destruct (ta !! ("para1", "R")) as [a1R|] eqn:E3;
    [| right; split;
       [intros [t Ht]; destruct Ht as (_ & _ & G & _); congruence
       | unfold angular_coefficients;
         rewrite (getitem_Some ta _ _ E1), (getitem_Some ta _ _ E2),
           (getitem_None ta _ E3); reflexivity]].
  destruct (ta !! ("para1", "L")) as [a1L|] eqn:E4;
    [| right; split;
       [intros [t Ht]; destruct Ht as (_ & _ & _ & G & _); congruence
       | unfold angular_coefficients;
         rewrite (getitem_Some ta _ _ E1), (getitem_Some ta _ _ E2),
           (getitem_Some ta _ _ E3), (getitem_None ta _ E4); reflexivity]].
  destruct (ta !! ("perp0", "R")) as [p0R|] eqn:E5;
    [| right; split;
       [intros [t Ht]; destruct Ht as (_ & _ & _ & _ & G & _); congruence
       | unfold angular_coefficients;
         rewrite (getitem_Some ta _ _ E1), (getitem_Some ta _ _ E2),
           (getitem_Some ta _ _ E3), (getitem_Some ta _ _ E4),
           (getitem_None ta _ E5); reflexivity]].
  destruct (ta !! ("perp0", "L")) as [p0L|] eqn:E6;
    [| right; split;
       [intros [t Ht]; destruct Ht as (_ & _ & _ & _ & _ & G & _); congruence
       | unfold angular_coefficients;
         rewrite (getitem_Some ta _ _ E1), (getitem_Some ta _ _ E2),
           (getitem_Some ta _ _ E3), (getitem_Some ta _ _ E4),
           (getitem_Some ta _ _ E5), (getitem_None ta _ E6); reflexivity]].
  destruct (ta !! ("para0", "R")) as [a0R|] eqn:E7;
    [| right; split;
       [intros [t Ht]; destruct Ht as (_ & _ & _ & _ & _ & _ & G & _); congruence
       | unfold angular_coefficients;
         rewrite (getitem_Some ta _ _ E1), (getitem_Some ta _ _ E2),
           (getitem_Some ta _ _ E3), (getitem_Some ta _ _ E4),
           (getitem_Some ta _ _ E5), (getitem_Some ta _ _ E6),
           (getitem_None ta _ E7); reflexivity]].
  destruct (ta !! ("para0", "L")) as [a0L|] eqn:E8;
    [| right; split;
       [intros [t Ht]; destruct Ht as (_ & _ & _ & _ & _ & _ & _ & G); congruence
       | unfold angular_coefficients;
         rewrite (getitem_Some ta _ _ E1), (getitem_Some ta _ _ E2),
           (getitem_Some ta _ _ E3), (getitem_Some ta _ _ E4),
           (getitem_Some ta _ _ E5), (getitem_Some ta _ _ E6),
           (getitem_Some ta _ _ E7), (getitem_None ta _ E8); reflexivity]].
  left. exists (mkTA p1R p1L a1R a1L p0R p0L a0R a0L).
  assert (Ht : ta_entries ta (mkTA p1R p1L a1R a1L p0R p0L a0R a0L))
    by (unfold ta_entries; cbn; repeat split; assumption).
  split; [exact Ht | apply angular_coefficients_closed; exact Ht].
Qed.

Lemma angular_coefficients_Ok_inv
    (ta : gmap (string * string) C) (alpha : R) (K : gmap string R) :
  angular_coefficients ta alpha = Ok K ->
  exists t : Transversity, ta_entries ta t /\ K = Spec.angular t alpha.
Proof.
  intros HK.
  destruct (angular_coefficients_cases ta alpha) as [(t & Ht & Hc) | [_ Hr]].
  - exists t. split; [exact Ht | congruence].
  - congruence.
Qed.

(** X9. [angular_coefficients] returns exactly when the amplitude set holds
    all eight keys, for any [alpha]; when a key is missing it raises
    [KeyError] and never another exception. *)
Theorem angular_coefficients_total_or_KeyError
    (ta : gmap (string * string) C) (alpha : R) :
  ((exists K : gmap string R, angular_coefficients ta alpha = Ok K) <->
   (exists t : Transversity, ta_entries ta t)) /\
  ((~ exists t : Transversity, ta_entries ta t) ->
   angular_coefficients ta alpha = Raise KeyError).
Proof.
  destruct (angular_coefficients_cases ta alpha) as [(t & Ht & Hc) | [Hn Hr]].
  - split; [| intros Hn; exfalso; apply Hn; exists t; exact Ht].
    split; [intros _; exists t; exact Ht | intros _; eexists; exact Hc].
  - split; [| intros _; exact Hr].
    split; [intros [K HK]; congruence | intros Ht; contradiction].
Qed.

Lemma re_conj_bounds (z w : C) :
  - ((Spec.mag2 z + Spec.mag2 w) / 2) <= real (z * conj w)%C
  <= (Spec.mag2 z + Spec.mag2 w) / 2.
Proof.
  rewrite !mag2_sum. destruct z as [a b], w as [c d].
  unfold Cmul, conj; cbn [real imag].
  pose proof (pow2_ge_0 (a - c)). pose proof (pow2_ge_0 (a + c)).
  pose proof (pow2_ge_0 (b - d)). pose proof (pow2_ge_0 (b + d)).
  split; nra.
Qed.

(** X10. For every amplitude set the returned coefficients satisfy
    [|K[1c]| <= K[1cc] <= 2 K[1ss]]. *)
Theorem angular_coefficients_bounds
    (ta : gmap (string * string) C) (alpha : R) (K : gmap string R) :
  angular_coefficients ta alpha = Ok K ->
  exists k1ss k1cc k1c : R,
    K !! "1ss" = Some k1ss /\ K !! "1cc" = Some k1cc /\ K !! "1c" = Some k1c /\
    Rabs k1c <= k1cc /\ k1cc <= 2 * k1ss.
Proof.
  intros HK. destruct (angular_coefficients_Ok_inv _ _ _ HK) as (t & _ & ->).
  exists (Spec.K_1ss t), (Spec.K_1cc t), (Spec.K_1c t).
  unfold Spec.angular.
  repeat (split; [simplify_map_eq; reflexivity |]).
  pose proof (mag2_nonneg (perp0R t)). pose proof (mag2_nonneg (perp0L t)).
  pose proof (mag2_nonneg (para0R t)). pose proof (mag2_nonneg (para0L t)).
  pose proof (re_conj_bounds (perp1R t) (para1R t)) as HR.
  pose proof (re_conj_bounds (perp1L t) (para1L t)) as HL.
  pose proof (mag2_nonneg (perp1R t)). pose proof (mag2_nonneg (perp1L t)).
  pose proof (mag2_nonneg (para1R t)). pose proof (mag2_nonneg (para1L t)).
  split.
  - unfold Spec.K_1c, Spec.K_1cc. unfold Csub at 1; cbn [real].
    apply Rabs_le. lra.
  - unfold Spec.K_1ss, Spec.K_1cc. lra.
Qed.

Lemma ta_zero_entries : ta_entries ta_zero t_zero.
Proof. unfold ta_entries, ta_zero. repeat split; reflexivity. Qed.

Lemma angular_coefficients_bounds_witness :
  exists k1ss k1cc k1c : R,
    Spec.angular t_zero 1 !! "1ss" = Some k1ss /\
    Spec.angular t_zero 1 !! "1cc" = Some k1cc /\
    Spec.angular t_zero 1 !! "1c" = Some k1c /\
    Rabs k1c <= k1cc /\ k1cc <= 2 * k1ss.
Proof.
  apply (angular_coefficients_bounds ta_zero 1).
  apply angular_coefficients_closed. exact ta_zero_entries.
Defined.

(** X11. The seven coefficients 2ss, 2cc, 2c, 3sc, 3s, 4sc and 4s are linear
    in [alpha]: each is [alpha] times its value at [alpha = 1]. *)
Theorem angular_coefficients_linear_in_alpha
    (ta : gmap (string * string) C) (alpha : R) (K1 : gmap string R) :
  angular_coefficients ta 1 = Ok K1 ->
  exists K : gmap string R,
    angular_coefficients ta alpha = Ok K /\
    (forall k : string,
       k ∈ ["2ss"; "2cc"; "2c"; "3sc"; "3s"; "4sc"; "4s"] ->
       exists x : R, K1 !! k = Some x /\ K !! k = Some (alpha * x)).
Proof.
  intros HK1. destruct (angular_coefficients_Ok_inv _ _ _ HK1) as (t & Ht & ->).
  assert (Hs : sqrt 2 <> 0) by (apply sqrt_pos_neq; lra).
  exists (Spec.angular t alpha).
  split; [apply angular_coefficients_closed; exact Ht |].
  intros k Hk. unfold Spec.angular.
  repeat (apply elem_of_cons in Hk as [-> | Hk];
          [eexists; split; [simplify_map_eq; reflexivity |];
           simplify_map_eq; f_equal; unfold_K; field; exact Hs |]).
  apply elem_of_nil in Hk. contradiction.
Qed.

Lemma angular_coefficients_linear_in_alpha_witness :
  exists K : gmap string R,
    angular_coefficients ta_zero 3 = Ok K /\
    (forall k : string,
       k ∈ ["2ss"; "2cc"; "2c"; "3sc"; "3s"; "4sc"; "4s"] ->
       exists x : R, Spec.angular t_zero 1 !! k = Some x /\ K !! k = Some (3 * x)).
Proof.
  apply (angular_coefficients_linear_in_alpha ta_zero 3).
  apply angular_coefficients_closed. exact ta_zero_entries.
Defined.

(** The amplitude set with every entry multiplied by [c]. *)
Lemma ta_entries_scale (c : C) (ta : gmap (string * string) C) (t : Transversity) :
  ta_entries ta t ->
  ta_entries ((fun z => c * z)%C <$> ta)
    (mkTA (c * perp1R t) (c * perp1L t) (c * para1R t) (c * para1L t)
          (c * perp0R t) (c * perp0L t) (c * para0R t) (c * para0L t)).
Proof.
  intros (E1 & E2 & E3 & E4 & E5 & E6 & E7 & E8).
  unfold ta_entries; cbn [perp1R perp1L para1R para1L perp0R perp0L para0R para0L].
  rewrite !lookup_fmap, E1, E2, E3, E4, E5, E6, E7, E8.
  repeat split; reflexivity.
Qed.

(** X12. Multiplying all eight amplitudes by one complex number [c]
    multiplies every angular coefficient by [abs(c)**2]; in particular a
    common phase leaves the coefficients unchanged. *)
Theorem angular_coefficients_common_factor
    (ta : gmap (string * string) C) (alpha : R) (c : C) (K : gmap string R) :
  angular_coefficients ta alpha = Ok K ->
  angular_coefficients ((fun z => c * z)%C <$> ta) alpha
  = Ok ((fun x => Cabs c ^ 2 * x) <$> K).
Proof.
  intros HK. destruct (angular_coefficients_Ok_inv _ _ _ HK) as (t & Ht & ->).
  assert (Hs : sqrt 2 <> 0) by (apply sqrt_pos_neq; lra).
  rewrite (angular_coefficients_closed _ _ _ (ta_entries_scale c _ _ Ht)).
  f_equal. unfold Spec.angular. rewrite !fmap_insert, fmap_empty.
  rewrite Cabs_sq.
  repeat (apply insert_ext;
          [unfold_K;
           cbn [perp1R perp1L para1R para1L perp0R perp0L para0R para0L];
           unfold_C; field; exact Hs |]).
  reflexivity.
Qed.

Lemma angular_coefficients_common_factor_witness :
  angular_coefficients ((fun z => RtoC 2 * z)%C <$> ta_zero) 1
  = Ok ((fun x => Cabs (RtoC 2) ^ 2 * x) <$> Spec.angular t_zero 1).
Proof.
  apply (angular_coefficients_common_factor ta_zero 1 (RtoC 2)).
  apply angular_coefficients_closed. exact ta_zero_entries.
Defined.

(** X13. When the left- and right-handed amplitudes coincide in all four
    channels, the coefficients 1c, 2c, 3s and 4s are exactly zero. *)
Theorem angular_coefficients_chirality_blind
    (ta : gmap (string * string) C) (alpha : R) (K : gmap string R) :
  angular_coefficients ta alpha = Ok K ->
  ta !! ("perp1", "L") = ta !! ("perp1", "R") ->
  ta !! ("para1", "L") = ta !! ("para1", "R") ->
  ta !! ("perp0", "L") = ta !! ("perp0", "R") ->
  ta !! ("para0", "L") = ta !! ("para0", "R") ->
  K !! "1c" = Some 0 /\ K !! "2c" = Some 0 /\ K !! "3s" = Some 0 /\ K !! "4s" = Some 0.
Proof.
  intros HK H1 H2 H3 H4.
  destruct (angular_coefficients_Ok_inv _ _ _ HK) as (t & Ht & ->).
  destruct Ht as (E1 & E2 & E3 & E4 & E5 & E6 & E7 & E8).
  assert (P1 : perp1L t = perp1R t) by congruence.
  assert (P2 : para1L t = para1R t) by congruence.
  assert (P3 : perp0L t = perp0R t) by congruence.
  assert (P4 : para0L t = para0R t) by congruence.
  assert (Hs : sqrt 2 <> 0) by (apply sqrt_pos_neq; lra).
  unfold Spec.angular.
  repeat split; simplify_map_eq; f_equal; unfold_K; rewrite P1, P2, ?P3, ?P4;
    unfold_C; field; exact Hs.
Qed.

Lemma angular_coefficients_chirality_blind_witness :
  Spec.angular t_zero 1 !! "1c" = Some 0 /\ Spec.angular t_zero 1 !! "2c" = Some 0 /\
  Spec.angular t_zero 1 !! "3s" = Some 0 /\ Spec.angular t_zero 1 !! "4s" = Some 0.
Proof.
  apply (angular_coefficients_chirality_blind ta_zero 1);
    [| reflexivity | reflexivity | reflexivity | reflexivity].
  apply angular_coefficients_closed. exact ta_zero_entries.
Defined.

(** X14. The two stages compose: whatever [transverity_amps] returns is
    accepted by [angular_coefficients] for every [alpha], which then returns
    a dictionary of ten coefficients. *)
Theorem transverity_then_angular
    (ha : gmap string R) (q2 mLb mL mqh mql : R) (wc : gmap string C) (N : C)
    (A : gmap (string * string) C) (alpha : R) :
  transverity_amps ha q2 mLb mL mqh mql wc N = Ok A ->
  exists K : gmap string R,
    angular_coefficients A alpha = Ok K /\ size K = 10%nat.
Proof.
  intros HA. destruct (transverity_amps_entries _ _ _ _ _ _ _ _ _ HA) as [t Ht].
  exists (Spec.angular t alpha).
  split; [apply angular_coefficients_closed; exact Ht | apply angular_size].
Qed.

Lemma transverity_then_angular_witness :
  exists K : gmap string R,
    angular_coefficients (Spec.transversity (RtoC 1) 1 4 wb_ones hp_ones) (1 / 2) = Ok K /\
    size K = 10%nat.
Proof.
  apply (transverity_then_angular (helicity_dict hp_ones) 1 2 1 4 0 wc_ones (RtoC 1)).
  apply (transverity_amps_closed _ hp_ones _ _ _ _ _ _ wb_ones);
    [lra | apply helicity_dict_plus | apply wc_ones_entries].
Defined.

(** ** The observable evaluator: window edges, missing keys, sign *)

Lemma K_1ss_nonneg (t : Transversity) : 0 <= Spec.K_1ss t.
Proof.
  unfold Spec.K_1ss.
  pose proof (mag2_nonneg (perp1R t)). pose proof (mag2_nonneg (perp1L t)).
  pose proof (mag2_nonneg (para1R t)). pose proof (mag2_nonneg (para1L t)).
  pose proof (mag2_nonneg (perp0R t)). pose proof (mag2_nonneg (perp0L t)).
  pose proof (mag2_nonneg (para0R t)). pose proof (mag2_nonneg (para0L t)).
  lra.
Qed.

Lemma K_1cc_nonneg (t : Transversity) : 0 <= Spec.K_1cc t.
Proof.
  unfold Spec.K_1cc.
  pose proof (mag2_nonneg (perp1R t)). pose proof (mag2_nonneg (perp1L t)).
  pose proof (mag2_nonneg (para1R t)). pose proof (mag2_nonneg (para1L t)).
  lra.
Qed.

Lemma dGdq2_angular (t : Transversity) (alpha : R) :
  dGdq2 (Spec.angular t alpha) = Ok (2 * Spec.K_1ss t + Spec.K_1cc t).
Proof.
  unfold dGdq2, Spec.angular.
  repeat (erewrite getitem_Some by (simplify_map_eq; reflexivity);
          cbn [mbind result_bind]).
  reflexivity.
Qed.

Section EvaluatorProperties.

Context `{E : Collaborators}.

(** X15. With the three masses in the table, [get_obs] returns 0 for every
    negative [q2], whatever the lepton mass: such a point is always below
    the window. *)
Theorem get_obs_negative_q2
    (function : gmap string R -> result R) (q2 : R) (wc_obj : WilsonCoefficients)
    (par : gmap pkey R) (lep : string) (ml mLb mL : R) :
  par !! PStr ("m_" +:+ lep) = Some ml ->
  par !! PStr "m_Lambdab" = Some mLb ->
  par !! PStr "m_Lambda" = Some mL ->
  q2 < 0 ->
  get_obs function q2 wc_obj par lep = Ok 0.
Proof.
  intros Hml HmLb HmL Hq. unfold get_obs.
  rewrite (getitem_Some par _ _ Hml), (getitem_Some par _ _ HmLb),
    (getitem_Some par _ _ HmL).
  cbn [mbind result_bind].
  destruct (Rlt_dec q2 (4 * ml ^ 2)) as [_ | Hn]; [reflexivity |].
  exfalso. apply Hn. pose proof (pow2_ge_0 ml). lra.
Qed.

(** X16. When the window is empty, [(mLb - mL)^2 < 4 ml^2], [get_obs]
    returns 0 at every [q2] and never runs the pipeline. *)
Theorem get_obs_empty_window
    (function : gmap string R -> result R) (q2 : R) (wc_obj : WilsonCoefficients)
    (par : gmap pkey R) (lep : string) (ml mLb mL : R) :
  par !! PStr ("m_" +:+ lep) = Some ml ->
  par !! PStr "m_Lambdab" = Some mLb ->
  par !! PStr "m_Lambda" = Some mL ->
  (mLb - mL) ^ 2 < 4 * ml ^ 2 ->
  get_obs function q2 wc_obj par lep = Ok 0.
Proof.
  intros Hml HmLb HmL Hw. unfold get_obs.
  rewrite (getitem_Some par _ _ Hml), (getitem_Some par _ _ HmLb),
    (getitem_Some par _ _ HmL).
  cbn [mbind result_bind].
  destruct (Rlt_dec q2 (4 * ml ^ 2)); [reflexivity |].
  destruct (Rgt_dec q2 ((mLb - mL) ^ 2)) as [_ | Hn]; [reflexivity |].
  exfalso. apply Hn. lra.
Qed.

(** X17. The masses are read before the window test: if any of the keys
    ['m_' + lep], ['m_Lambdab'], ['m_Lambda'] is missing, [get_obs] raises
    [KeyError] at every [q2], also where it would otherwise return 0. *)
Theorem get_obs_missing_mass
    (function : gmap string R -> result R) (q2 : R) (wc_obj : WilsonCoefficients)
    (par : gmap pkey R) (lep : string) :
  par !! PStr ("m_" +:+ lep) = None \/ par !! PStr "m_Lambdab" = None \/
  par !! PStr "m_Lambda" = None ->
  get_obs function q2 wc_obj par lep = Raise KeyError.
Proof.
  intros Hmiss. unfold get_obs.
  destruct (par !! PStr ("m_" +:+ lep)) as [ml|] eqn:E1;
    [rewrite (getitem_Some par _ _ E1) | rewrite (getitem_None par _ E1); reflexivity].
  destruct (par !! PStr "m_Lambdab") as [mLb|] eqn:E2;
    [rewrite (getitem_Some par _ _ E2) | rewrite (getitem_None par _ E2); reflexivity].
  destruct (par !! PStr "m_Lambda") as [mL|] eqn:E3;
    [| rewrite (getitem_None par _ E3); reflexivity].
  destruct Hmiss as [H | [H | H]]; discriminate H.
Qed.

(** X18. Whenever [dbrdq2] returns and the lifetime in the table is
    non-negative, the returned density is non-negative. *)
Theorem dbrdq2_nonneg
    (q2 : R) (wc_obj : WilsonCoefficients) (par : gmap pkey R) (lep : string)
    (tauLb v : R) :
  par !! PStr "tau_Lambdab" = Some tauLb -> 0 <= tauLb ->
  dbrdq2 q2 wc_obj par lep = Ok v ->
  0 <= v.
Proof.
  intros Htau Hpos Hv. unfold dbrdq2 in Hv.
  rewrite (getitem_Some par _ _ Htau) in Hv. cbn [mbind result_bind] in Hv.
  destruct (get_obs dGdq2 q2 wc_obj par lep) as [o|] eqn:Ho; [| discriminate Hv].
  injection Hv as <-.
  enough (0 <= o) by nra.
  unfold get_obs in Ho. unfold mbind, result_bind in Ho.
  destruct (getitem par (PStr ("m_" +:+ lep))) as [ml|]; [| discriminate Ho].
  destruct (getitem par (PStr "m_Lambdab")) as [mLb|]; [| discriminate Ho].
  destruct (getitem par (PStr "m_Lambda")) as [mL|]; [| discriminate Ho].
  destruct (Rlt_dec q2 (4 * ml ^ 2)); [injection Ho as <-; lra |].
  destruct (Rgt_dec q2 ((mLb - mL) ^ 2)); [injection Ho as <-; lra |].
  destruct (get_transverity_amps q2 wc_obj par lep false) as [ta|]; [| discriminate Ho].
  destruct (getitem par (PStr "Lambda->ppi alpha_-")) as [alpha|]; [| discriminate Ho].
  destruct (angular_coefficients ta alpha) as [K|] eqn:HK; [| discriminate Ho].
  destruct (angular_coefficients_Ok_inv _ _ _ HK) as (t & _ & ->).
  rewrite dGdq2_angular in Ho. injection Ho as <-.
  pose proof (K_1ss_nonneg t). pose proof (K_1cc_nonneg t). lra.
Qed.

(** X19. The differential prediction [dbrdq2_func lep] returns exactly 0 at
    every point outside the window, given the lifetime and the three masses
    in the table. *)
Theorem dbrdq2_func_outside_window
    (q2 : R) (wc_obj : WilsonCoefficients) (par : gmap pkey R) (lep : string)
    (tauLb ml mLb mL : R) :
  par !! PStr "tau_Lambdab" = Some tauLb ->
  par !! PStr ("m_" +:+ lep) = Some ml ->
  par !! PStr "m_Lambdab" = Some mLb ->
  par !! PStr "m_Lambda" = Some mL ->
  q2 < 4 * ml ^ 2 \/ q2 > (mLb - mL) ^ 2 ->
  dbrdq2_func lep wc_obj par q2 = Ok 0.
Proof.
  intros Htau Hml HmLb HmL Hout. unfold dbrdq2_func, dbrdq2, get_obs.
  rewrite (getitem_Some par _ _ Htau), (getitem_Some par _ _ Hml),
    (getitem_Some par _ _ HmLb), (getitem_Some par _ _ HmL).
  cbn [mbind result_bind].
  destruct (Rlt_dec q2 (4 * ml ^ 2));
    [cbn [mbind result_bind]; f_equal; ring |].
  destruct (Rgt_dec q2 ((mLb - mL) ^ 2));
    [cbn [mbind result_bind]; f_equal; ring |].
  exfalso. destruct Hout; contradiction.
Qed.

End EvaluatorProperties.

Lemma get_obs_negative_q2_witness :
  @get_obs toy dGdq2 (-1) tt par_sample "mu" = Ok 0.
Proof.
  apply (@get_obs_negative_q2 toy dGdq2 (-1) tt par_sample "mu" (1 / 4) 2 1);
    [reflexivity | reflexivity | reflexivity | lra].
Defined.

Lemma get_obs_empty_window_witness :
  @get_obs toy dGdq2 1 tt par_heavy "mu" = Ok 0.
Proof.
  apply (@get_obs_empty_window toy dGdq2 1 tt par_heavy "mu" 1 2 1);
    [reflexivity | reflexivity | reflexivity | lra].
Defined.

Lemma get_obs_missing_mass_witness :
  @get_obs toy dGdq2 (-1) tt ∅ "mu" = Raise KeyError.
Proof.
  apply (@get_obs_missing_mass toy dGdq2 (-1) tt ∅ "mu"). left. reflexivity.
Defined.

(** The sample density is defined at [q2 = 1]. *)
Lemma toy_dbrdq2_ok : exists v : R, @dbrdq2 toy 1 tt par_sample "mu" = Ok v.
Proof.
  destruct toy_transverity_ok as [ta Hta].
  destruct (@get_transverity_amps_entries toy _ _ _ _ _ Hta) as [t Ht].
  unfold dbrdq2, get_obs.
  repeat (cbn [mbind result_bind];
          erewrite getitem_Some by (simplify_map_eq; reflexivity)).
  cbn [mbind result_bind].
  destruct (Rlt_dec 1 (4 * (1 / 4) ^ 2)); [lra |].
  destruct (Rgt_dec 1 ((2 - 1) ^ 2)); [lra |].
  rewrite Hta. cbn [mbind result_bind].
  rewrite (angular_coefficients_closed _ _ _ Ht). cbn [mbind result_bind].
  rewrite dGdq2_angular. cbn [mbind result_bind].
  eexists. reflexivity.
Qed.

Lemma dbrdq2_nonneg_witness :
  exists v : R, @dbrdq2 toy 1 tt par_sample "mu" = Ok v /\ 0 <= v.
Proof.
  destruct toy_dbrdq2_ok as [v Hv]. exists v. split; [exact Hv |].
  apply (@dbrdq2_nonneg toy 1 tt par_sample "mu" 3 v); [reflexivity | lra | exact Hv].
Defined.

Lemma dbrdq2_func_outside_window_witness :
  @dbrdq2_func toy "mu" tt par_sample 2 = Ok 0.
Proof.
  apply (@dbrdq2_func_outside_window toy 2 tt par_sample "mu" 3 (1 / 4) 2 1);
    [reflexivity | reflexivity | reflexivity | reflexivity |].
  right. lra.
Defined.
